(** * Guardian corpus builder: record codec and section collector

    A shallow embedding of [data_collection.py] (encoder [format_article],
    paginated collector [collect_section]) and of [sensing.py] (decoder
    [parse_article]), with the properties of the record codec and of the
    collection loop stated and proved over it.

    Conventions of the embedding:
    - a Python [str] is a list of Unicode code points ([list N]);
    - a Python [dict] with string keys is a [gmap str _];
    - the article payload is the JSON object of the content API: string
      members, a nested [fields] object and a [tags] array, each of which may
      be missing or [null];
    - the [while] loop of [collect_section] is run with fuel, and records the
      requests, writes and sleeps it performs in a trace. *)

From Stdlib Require Import NArith DecimalString DecimalNat.
From stdpp Require Import gmap list strings.

(** ** Python strings *)

Module PyStr.

Abbreviation char := N (only parsing).
Abbreviation str := (list N) (only parsing).

(** A string literal of the source, as code points. *)
Definition lit (s : string) : str :=
  (fix go (s : string) : str :=
     match s with
     | EmptyString => []
     | String a s' => Ascii.N_of_ascii a :: go s'
     end) s.

Definition LF : char := 10%N.
Definition COLON : char := 58%N.
Definition SLASH : char := 47%N.
Definition UNDERSCORE : char := 95%N.

(** [str.isspace] on one code point: the white-space table of CPython
    ([_PyUnicode_IsWhitespace]), which is what [str.strip()] removes. *)
Definition is_space (c : char) : bool :=
  ((9 <=? c) && (c <=? 13) || (28 <=? c) && (c <=? 32)
   || (c =? 133) || (c =? 160) || (c =? 5760)
   || (8192 <=? c) && (c <=? 8202)
   || (c =? 8232) || (c =? 8233) || (c =? 8239) || (c =? 8287)
   || (c =? 12288))%N.

(** [s.lstrip()], [s.rstrip()], [s.strip()]. *)
Fixpoint lstrip (s : str) : str :=
  match s with
  | [] => []
  | c :: s' => if is_space c then lstrip s' else s
  end.

Definition rstrip (s : str) : str := rev (lstrip (rev s)).

Definition strip (s : str) : str := rstrip (lstrip s).

(** [s.split("\n")]: never empty, [""] splits to [[""]]. *)
Fixpoint split_lf (s : str) : list str :=
  match s with
  | [] => [[]]
  | c :: s' =>
      if N.eqb c LF then [] :: split_lf s'
      else match split_lf s' with
           | l :: ls => (c :: l) :: ls
           | [] => [[c]]
           end
  end.

(** [sep.join(parts)]. *)
Fixpoint join (sep : str) (parts : list str) : str :=
  match parts with
  | [] => []
  | [p] => p
  | p :: ps => p ++ sep ++ join sep ps
  end.

(** [line.split(':', 1)] when [':' in line]: the text before and after the
    first colon; [None] when the line has no colon. *)
Fixpoint split_colon (line : str) : option (str * str) :=
  match line with
  | [] => None
  | c :: rest =>
      if N.eqb c COLON then Some ([], rest)
      else match split_colon rest with
           | Some (k, v) => Some (c :: k, v)
           | None => None
           end
  end.

(** [s.replace("/", "_")]. *)
Definition replace_slash (s : str) : str :=
  map (fun c => if N.eqb c SLASH then UNDERSCORE else c) s.

(** [str(n)] for a non-negative integer. *)
Definition str_of_nat (n : nat) : str :=
  lit (NilZero.string_of_uint (Nat.to_uint n)).

End PyStr.
Import PyStr.


(** ** The article payload (content API) *)

(** A member of a JSON object that the code reads with [.get(key, d) or d]:
    missing, [null], or present. *)
Inductive member (A : Type) : Type :=
  | Absent
  | Null
  | Present (a : A).
Arguments Absent {A}.
Arguments Null {A}.
Arguments Present {A} a.

(** [article.get(key, default) or default] on such a member; [falsy] is the
    truth-value test of the member's Python type. *)
Definition get_or {A : Type} (falsy : A -> bool) (m : member A) (d : A) : A :=
  match m with
  | Present a => if falsy a then d else a
  | Absent | Null => d
  end.

(** [d.get(key, "")] on an object with string members. *)
Definition get (d : gmap str str) (key : string) : str :=
  default [] (d !! lit key).

(** [x or y] on strings: the empty string is falsy. *)
Definition str_or (x y : str) : str :=
  match x with
  | [] => y
  | _ => x
  end.

Record article : Type := Article {
  members : gmap str str;               (* id, sectionId, sectionName, ... *)
  fields : member (gmap str str);       (* article["fields"] *)
  tags : member (list (gmap str str))   (* article["tags"] *)
}.

(** ** data_collection.py: the encoder *)

Module Encoder.

Definition join_csv (values : list str) : str :=
  match values with
  | [] => []
  | _ => join (lit ",") values
  end.

(** One formatted line [f"KEY: {value}"]. *)
Definition kv (key : string) (value : str) : str :=
  lit key ++ lit ": " ++ value.

(** [tag.get(key, "") if primary_tag else ""]: an empty tag object is falsy. *)
Definition primary (primary_tag : option (gmap str str)) (key : string) : str :=
  match primary_tag with
  | Some tag => if bool_decide (tag = ∅) then [] else get tag key
  | None => []
  end.

(** [fields = article.get("fields", {}) or {}] and
    [tags = article.get("tags", []) or []]. *)
Definition article_fields (a : article) : gmap str str :=
  get_or (fun d => bool_decide (d = ∅)) (fields a) ∅.

Definition article_tags (a : article) : list (gmap str str) :=
  get_or (fun l => bool_decide (l = [])) (tags a) [].

(** The key and the value of each of the fourteen lines of [format_article],
    in the order of the list [lines]. *)
Definition article_record (a : article) : list (string * str) :=
  let fields := article_fields a in
  let tags := article_tags a in
  let body_text := str_or (get fields "bodyText") [] in
  let tag_ids := map (fun tag => get tag "id") tags in
  let tag_titles := map (fun tag => get tag "title") tags in
  let primary_tag := head tags in
  let primary_id := primary primary_tag "id" in
  let primary_title := primary primary_tag "title" in
  let primary_type := primary primary_tag "type" in
  [ ("ID", get (members a) "id");
    ("SECTION_ID", get (members a) "sectionId");
    ("SECTION_NAME", get (members a) "sectionName");
    ("WEB_TITLE", get (members a) "webTitle");
    ("WEB_URL", get (members a) "webUrl");
    ("HEADLINE", get fields "headline");
    ("TRAIL_TEXT", get fields "trailText");
    ("BYLINE", get fields "byline");
    ("BODY_TEXT", body_text);
    ("TAGS_IDS", join_csv tag_ids);
    ("TAGS_TITLES", join_csv tag_titles);
    ("PRIMARY_TAG_ID", primary_id);
    ("PRIMARY_TAG_TITLE", primary_title);
    ("PRIMARY_TAG_TYPE", primary_type) ].

(** The list [lines]: one [f"KEY: {value}"] per entry. *)
Definition article_lines (a : article) : list str :=
  map (fun e => kv e.1 e.2) (article_record a).

Definition format_article (a : article) : str :=
  join [LF] (article_lines a).

End Encoder.
Import Encoder.

(** ** sensing.py: the decoder *)

Module Decoder.

(** The body of the [for line in lines] loop. *)
Definition parse_line (article_data : gmap str str) (line : str) : gmap str str :=
  match split_colon line with
  | Some (key, value) => <[strip key := strip value]> article_data
  | None => article_data
  end.

(** [for line in lines: ...] on the mapping built so far. *)
Definition parse_lines (lines : list str) (article_data : gmap str str)
  : gmap str str :=
  fold_left parse_line lines article_data.

(** [parse_article] after the file has been read: [label] is
    [file_path.parent.name], [content] the text of the file. *)
Definition parse_content (label content : str) : gmap str str :=
  parse_lines (split_lf (strip content)) {[ lit "label" := label ]}.

(** A path as its components; [file_path.parent.name] is the last component
    of the parent, the empty string when there is none. *)
Definition path := list str.

Definition parent_name (file_path : path) : str :=
  default [] (last (removelast file_path)).

(** The errors [read_text] raises, all subclasses of [Exception]. *)
Inductive io_error : Type :=
  | FileNotFoundError
  | PermissionError
  | IsADirectoryError
  | UnicodeDecodeError.

Inductive outcome (A : Type) : Type :=
  | Returned (a : A)
  | Raised (e : io_error).
Arguments Returned {A} a.
Arguments Raised {A} e.

(** What [file_path.read_text(encoding='utf-8')] does on each path. *)
Definition filesystem := path -> outcome str.

(** [parse_article]: the [try]/[except Exception] around the read returns
    [None]; the diagnostic it prints is not modelled. *)
Definition parse_article (fs : filesystem) (file_path : path)
  : outcome (option (gmap str str)) :=
  match fs file_path with
  | Raised _ => Returned None
  | Returned content => Returned (Some (parse_content (parent_name file_path) content))
  end.

End Decoder.
Import Decoder.

(** ** Values and keys that a line of the record carries unchanged *)

(** No line feed inside, no white space at either end. *)
Definition clean (v : str) : Prop := (LF ∉ v) ∧ (strip v = v).

Global Instance clean_dec v : Decision (clean v).
Proof. unfold clean. apply _. Defined.

(** A key is clean and has no colon. *)
Definition good_key (k : str) : Prop := (COLON ∉ k) ∧ clean k.

Global Instance good_key_dec k : Decision (good_key k).
Proof. unfold good_key. apply _. Defined.

(** The keys of the fourteen lines, in order. *)
Definition record_keys : list string :=
  [ "ID"; "SECTION_ID"; "SECTION_NAME"; "WEB_TITLE"; "WEB_URL";
    "HEADLINE"; "TRAIL_TEXT"; "BYLINE"; "BODY_TEXT";
    "TAGS_IDS"; "TAGS_TITLES";
    "PRIMARY_TAG_ID"; "PRIMARY_TAG_TITLE"; "PRIMARY_TAG_TYPE" ].

(** The entries read from [fields], with the key each is read from. *)
Definition fields_entries : list (string * string) :=
  [ ("HEADLINE", "headline"); ("TRAIL_TEXT", "trailText");
    ("BYLINE", "byline"); ("BODY_TEXT", "bodyText") ].

(** ** The decoder as the specification words it *)

Module DecodeSpec.

(** A line with a separator, split once at its first occurrence, both sides
    trimmed; nothing for a line without separator. *)
Definition entry (line : str) : option (str * str) :=
  '(i, _) ← list_find (λ c, c = COLON) line;
  Some (strip (take i line), strip (drop (S i) line)).

(** The entries of all lines of the text, a later line overriding an
    earlier one with the same key. *)
Definition entries (text : str) : gmap str str :=
  list_to_map (rev (omap entry (split_lf text))).

End DecodeSpec.

(** ** data_collection.py: the section collector *)

Module Collector.

Definition ARTICLES_PER_SECTION : nat := 1000.
Definition PAGE_SIZE : nat := 50.

(** What the run does to the outside world, in order. *)
Inductive event : Type :=
  | Request (page : nat)             (* content.get_content_response() *)
  | Write (name content : str)       (* out_path.write_text(...) *)
  | Sleep.                           (* time.sleep(SLEEP_BETWEEN_CALLS) *)

Global Instance event_eq_dec : EqDecision event.
Proof. solve_decision. Defined.

(** The files of [out_dir] (name to text) and the events so far. *)
Record state : Type := State {
  files : gmap str str;
  trace : list event
}.

Definition log (e : event) (st : state) : state :=
  {| files := files st; trace := trace st ++ [e] |}.

Definition write_text (name content : str) (st : state) : state :=
  {| files := <[name := content]> (files st);
     trace := trace st ++ [Write name content] |}.

(** How one pass through the body of the [while] loop ends. *)
Inductive control : Type :=
  | Break (count : nat) (st : state)
  | Again (count page : nat) (st : state).

(** How a run with fuel ends: the loop was left, or the fuel ran out with
    the loop still running. *)
Inductive run : Type :=
  | Finished (count : nat) (st : state)
  | Running (count page : nat) (st : state).

Definition control_state (c : control) : state :=
  match c with
  | Break _ st | Again _ _ st => st
  end.

Definition run_state (r : run) : state :=
  match r with
  | Finished _ st | Running _ _ st => st
  end.

Section Loop.

(** The quota ([ARTICLES_PER_SECTION] in the source), the page size
    ([PAGE_SIZE]) and the content source: the results of
    [Content(section, page_size, page, ...)], the same at every request of
    a page.  A failure of the source is not modelled: the code lets it
    propagate. *)
Variable quota : nat.
Variable page_size : nat.
Variable source : str -> nat -> nat -> list article.

(** [for article in results: if count >= quota: break], entered with
    the loop variable bound to the first result: the binding the loop
    leaves behind. *)
Fixpoint for_article (count : nat) (art : article) (rest : list article)
  : article :=
  if quota <=? count then art
  else match rest with
       | [] => art
       | next :: rest' => for_article count next rest'
       end.

(** [article.get("id", "").replace("/", "_") or f"{target_name}_{page}_{count}"]. *)
Definition art_id (target_name : str) (page count : nat) (a : article) : str :=
  str_or (replace_slash (get (members a) "id"))
         (target_name ++ lit "_" ++ str_of_nat page ++ lit "_" ++ str_of_nat count).

(** One pass through the body of [while count < quota]. *)
Definition iteration (target_name gurdian_id : str) (count page : nat) (st : state)
  : control :=
  let st := log (Request page) st in
  match source gurdian_id page_size page with
  | [] => Break count st
  | first :: rest =>
      let art := for_article count first rest in
      let out_path := art_id target_name page count art ++ lit ".txt" in
      match files st !! out_path with
      | Some _ => Again count page st
      | None =>
          let st := write_text out_path (format_article art) st in
          let count := count + 1 in
          if quota <=? count then Break count st
          else Again count (page + 1) (log Sleep st)
      end
  end.

Fixpoint while_loop (fuel : nat) (target_name gurdian_id : str)
    (count page : nat) (st : state) : run :=
  if quota <=? count then Finished count st
  else match fuel with
       | 0 => Running count page st
       | S fuel' =>
           match iteration target_name gurdian_id count page st with
           | Break count' st' => Finished count' st'
           | Again count' page' st' =>
               while_loop fuel' target_name gurdian_id count' page' st'
           end
       end.

(** [collect_section] on the files already in [out_dir]; the progress
    messages it prints and the creation of [out_dir] are not modelled. *)
Definition collect_section (fuel : nat) (target_name gurdian_id : str)
    (stored : gmap str str) : run :=
  while_loop fuel target_name gurdian_id 0 1 {| files := stored; trace := [] |}.

End Loop.

(** The call made by [main] for each section: the quota and the page size
    are the constants of the module. *)
Definition collect_section_main :=
  collect_section ARTICLES_PER_SECTION PAGE_SIZE.

End Collector.
Import Collector.

(** ** Sample data *)

Module Samples.

Definition tag (id title : string) : gmap str str :=
  {[ lit "id" := lit id; lit "title" := lit title ]}.



(** An article with clean values throughout. *)
Definition match_report : article :=
  Article {[ lit "id" := lit "sport/2024/jan/03/final";
             lit "sectionId" := lit "sport";
             lit "sectionName" := lit "Sport";
             lit "webTitle" := lit "Final: a late winner";
             lit "webUrl" := lit "https://example.org/sport/final" ]}
          (Present {[ lit "headline" := lit "Final score";
                      lit "bodyText" := lit "It ended 2-1." ]})
          (Present [tag "sport/football" "Football"; tag "sport/cup" "Cup"]).

(** Articles that carry an id only, one that carries none, and a content
    source with two pages of three articles. *)
Definition plain (id : string) : article :=
  Article {[ lit "id" := lit id ]} Absent Absent.

Definition anonymous : article := Article ∅ Absent Absent.

Definition two_pages (gurdian_id : str) (page_size page : nat) : list article :=
  match page with
  | 1 => [plain "a1"; plain "a2"; plain "a3"]
  | 2 => [plain "b1"; plain "b2"; plain "b3"]
  | _ => []
  end.

Definition one_anonymous (gurdian_id : str) (page_size page : nat) : list article :=
  match page with
  | 1 => [plain "a1"; anonymous]
  | _ => []
  end.

(** The files and the trace of a first run on [two_pages] with quota 2. *)
Definition first_run_files : gmap (list N) (list N) :=
  {[ lit "a3.txt" := format_article (plain "a3");
     lit "b3.txt" := format_article (plain "b3") ]}.

Definition first_run_trace : list event :=
  [ Request 1; Write (lit "a3.txt") (format_article (plain "a3")); Sleep;
    Request 2; Write (lit "b3.txt") (format_article (plain "b3")) ].

Definition stored_at : path := [lit "data"; lit "news"; lit "story.txt"].

(** A file system with one readable record, and one with none. *)
Definition one_file (content : str) : filesystem :=
  λ p, if decide (p = stored_at) then Returned content else Raised FileNotFoundError.

Definition no_file : filesystem := λ _, Raised FileNotFoundError.

End Samples.

(** ** data_collection.py: the entry point *)

Module Main.

(** [SECTIONS]: the categories in the order of the dictionary, each with
    its Guardian section id. *)
Definition SECTIONS : list (list N * list N) :=
  [ (lit "news", lit "news");
    (lit "sport", lit "sport");
    (lit "opinion", lit "commentisfree");
    (lit "culture", lit "culture") ].

(** [get_api_key] on the environment as [load_dotenv()] leaves it: [None]
    stands for [raise RuntimeError(...)], raised when the variable is not
    set or is empty. *)
Definition get_api_key (environ : gmap (list N) (list N)) : option (list N) :=
  match environ !! lit "GUARDIAN_API_KEY" with
  | Some (c :: key) => Some (c :: key)
  | Some [] | None => None
  end.

(** How [main] ends, the directories of [data] (category to files) and, for
    each section it has started, the section id it asked for with the
    trace of that section. *)
Inductive ending : Type :=
  | RuntimeError
  | Completed
  | Unfinished.

Record main_run : Type := MainRun {
  ending_of : ending;
  data_of : gmap (list N) (gmap (list N) (list N));
  log_of : list (list N * list event)
}.

Section Sections.

Variable quota : nat.
Variable page_size : nat.
Variable source : list N → nat → nat → list article.

(** [for target_name, gurdian_id in SECTIONS.items(): collect_section(...)]:
    each section runs on the files of [data/<target_name>], a directory it
    creates when missing; a section that does not finish keeps the
    following ones from starting. *)
Fixpoint collect_sections (fuel : nat) (sections : list (list N * list N))
    (data : gmap (list N) (gmap (list N) (list N)))
    (log : list (list N * list event)) : main_run :=
  match sections with
  | [] => MainRun Completed data log
  | (target_name, gurdian_id) :: sections' =>
      match collect_section quota page_size source fuel target_name gurdian_id
              (default ∅ (data !! target_name)) with
      | Finished _ st =>
          collect_sections fuel sections'
            (<[target_name := files st]> data) (log ++ [(gurdian_id, trace st)])
      | Running _ _ st =>
          MainRun Unfinished
            (<[target_name := files st]> data) (log ++ [(gurdian_id, trace st)])
      end
  end.

End Sections.

(** [main]: the key first, then the sections with the constants of the
    module; the content source is given the key. *)
Definition main (source : list N → list N → nat → nat → list article)
    (fuel : nat) (environ : gmap (list N) (list N))
    (data : gmap (list N) (gmap (list N) (list N))) : main_run :=
  match get_api_key environ with
  | None => MainRun RuntimeError data []
  | Some api_key =>
      collect_sections ARTICLES_PER_SECTION PAGE_SIZE (source api_key)
        fuel SECTIONS data []
  end.

End Main.
Import Main.

(** A content source that answers one key only, with one page of one
    article per section. *)
Definition keyed_source (api_key gurdian_id : list N) (page_size page : nat)
  : list article :=
  if decide (api_key = lit "secret") then
    match page with
    | 1 => [Article {[ lit "id" := gurdian_id ++ lit "/one" ]} Absent Absent]
    | _ => []
    end
  else [].

(** ** sensing.py: the entry point *)

Module Sensing.

(** [main] on the paths that [DATA_ROOT.rglob("*.txt")] yields, in the order
    it yields them: the values printed, or the error that ends the walk. *)
Fixpoint main (fs : filesystem) (found : list path)
  : outcome (list (option (gmap (list N) (list N)))) :=
  match found with
  | [] => Returned []
  | file_path :: found' =>
      match parse_article fs file_path with
      | Raised e => Raised e
      | Returned article_data =>
          match main fs found' with
          | Raised e => Raised e
          | Returned printed => Returned (article_data :: printed)
          end
      end
  end.

End Sensing.

(** ** Further definitions *)

Definition COMMA : N := 44%N.
Definition CR : N := 13%N.


(** The count a run has reached, the names it has written and the pages
    it has requested, read off its trace. *)
Definition run_count (r : run) : nat :=
  match r with
  | Finished count _ | Running count _ _ => count
  end.

Definition written (tr : list event) : list (list N) :=
  omap (λ e, match e with Write name _ => Some name | _ => None end) tr.

Definition requested (tr : list event) : list nat :=
  omap (λ e, match e with Request page => Some page | _ => None end) tr.


(** Two articles whose ids differ by a slash and an underscore. *)
Definition slash_id : article := Samples.plain "world/2024/jan/05/a/b".
Definition underscore_id : article := Samples.plain "world/2024/jan/05/a_b".

(** ** Storing a record and reading it back *)

Module Storage.

(** A code point that UTF-8 encodes: at most U+10FFFF and no surrogate.
    [write_text(..., encoding='utf-8')] raises [UnicodeEncodeError] on a
    text that holds any other. *)
Definition is_scalar (c : N) : bool :=
  ((c <? 55296) || (57344 <=? c) && (c <=? 1114111))%N.



(** A value that a stored record carries unchanged: clean, without carriage
    return, and encoded by UTF-8. *)
Definition storable (v : list N) : Prop :=
  clean v ∧ (CR ∉ v) ∧ Forall (λ c, is_scalar c = true) v.

Global Instance storable_dec v : Decision (storable v).
Proof. unfold storable. apply _. Defined.

End Storage.
Import Storage.



(** ** The encoder on an untyped payload *)

Module Payload.

Local Set Warnings "-register-all".

(** A value of the decoded JSON payload.  A number carries the text that
    [str] gives of it and whether it is zero. *)
Inductive pyval : Type :=
  | PNone
  | PBool (b : bool)
  | PNum (zero : bool) (shown : list N)
  | PStr (s : list N)
  | PList (items : list pyval)
  | PDict (d : gmap (list N) pyval).

Inductive exn : Type :=
  | AttributeError
  | TypeError
  | KeyError.

Inductive result (A : Type) : Type :=
  | Ok (a : A)
  | Raise (e : exn).
Arguments Ok {A} a.
Arguments Raise {A} e.

Global Instance result_bind : MBind result :=
  λ A B f r, match r with Ok a => f a | Raise e => Raise e end.
Global Instance result_ret : MRet result := λ A a, Ok a.

(** The truth value of a payload value. *)
Definition truthy (v : pyval) : bool :=
  match v with
  | PNone => false
  | PBool b => b
  | PNum zero _ => negb zero
  | PStr s => match s with [] => false | _ => true end
  | PList items => match items with [] => false | _ => true end
  | PDict d => match map_to_list d with [] => false | _ => true end
  end.

(** [x or y]. *)
Definition py_or (x y : pyval) : pyval := if truthy x then x else y.

(** [v.get(key, default)]: only a mapping has [get]. *)
Definition dict_get (v : pyval) (key : string) (default : pyval) : result pyval :=
  match v with
  | PDict d => Ok (from_option id default (d !! lit key))
  | _ => Raise AttributeError
  end.

(** [for tag in tags]: the items of a list, the characters of a string, the
    keys of a mapping (in some order); nothing else can be iterated. *)
Definition py_iter (v : pyval) : result (list pyval) :=
  match v with
  | PList items => Ok items
  | PStr s => Ok (map (λ c, PStr [c]) s)
  | PDict d => Ok (map (λ e, PStr e.1) (map_to_list d))
  | _ => Raise TypeError
  end.

(** [tags[0] if tags else None]. *)
Definition py_first (tags : pyval) : result pyval :=
  if truthy tags then
    match tags with
    | PList (tag :: _) => Ok tag
    | PStr (c :: _) => Ok (PStr [c])
    | PDict _ => Raise KeyError
    | _ => Raise TypeError
    end
  else Ok PNone.

(** [primary_tag.get(key, "") if primary_tag else ""]. *)
Definition py_primary (primary_tag : pyval) (key : string) : result pyval :=
  if truthy primary_tag then dict_get primary_tag key (PStr []) else Ok (PStr []).

(** [",".join(values) if values else ""]: [join] takes strings only. *)
Fixpoint strings (values : list pyval) : result (list (list N)) :=
  match values with
  | [] => Ok []
  | PStr s :: values' => ss ← strings values'; Ok (s :: ss)
  | _ :: _ => Raise TypeError
  end.

Definition join_csv (values : list pyval) : result (list N) :=
  match values with
  | [] => Ok []
  | _ => ss ← strings values; Ok (join (lit ",") ss)
  end.

Section Format.

(** The text [str] gives of a list or a mapping. *)
Variable repr : pyval → list N.

(** [f"{v}"]. *)
Definition py_format (v : pyval) : list N :=
  match v with
  | PNone => lit "None"
  | PBool true => lit "True"
  | PBool false => lit "False"
  | PNum _ shown => shown
  | PStr s => s
  | PList _ | PDict _ => repr v
  end.

(** [format_article] up to the list [lines]: key and value of each line,
    or the exception raised on the way. *)
Definition payload_record (article : pyval) : result (list (string * list N)) :=
  fields0 ← dict_get article "fields" (PDict ∅);
  let fields := py_or fields0 (PDict ∅) in
  tags0 ← dict_get article "tags" (PList []);
  let tags := py_or tags0 (PList []) in
  body0 ← dict_get fields "bodyText" (PStr []);
  let body_text := py_or body0 (PStr []) in
  items ← py_iter tags;
  tag_ids ← mapM (λ tag, dict_get tag "id" (PStr [])) items;
  tag_titles ← mapM (λ tag, dict_get tag "title" (PStr [])) items;
  primary_tag ← py_first tags;
  primary_id ← py_primary primary_tag "id";
  primary_title ← py_primary primary_tag "title";
  primary_type ← py_primary primary_tag "type";
  id ← dict_get article "id" (PStr []);
  section_id ← dict_get article "sectionId" (PStr []);
  section_name ← dict_get article "sectionName" (PStr []);
  web_title ← dict_get article "webTitle" (PStr []);
  web_url ← dict_get article "webUrl" (PStr []);
  headline ← dict_get fields "headline" (PStr []);
  trail_text ← dict_get fields "trailText" (PStr []);
  byline ← dict_get fields "byline" (PStr []);
  ids ← join_csv tag_ids;
  titles ← join_csv tag_titles;
  Ok [ ("ID", py_format id);
       ("SECTION_ID", py_format section_id);
       ("SECTION_NAME", py_format section_name);
       ("WEB_TITLE", py_format web_title);
       ("WEB_URL", py_format web_url);
       ("HEADLINE", py_format headline);
       ("TRAIL_TEXT", py_format trail_text);
       ("BYLINE", py_format byline);
       ("BODY_TEXT", py_format body_text);
       ("TAGS_IDS", ids);
       ("TAGS_TITLES", titles);
       ("PRIMARY_TAG_ID", py_format primary_id);
       ("PRIMARY_TAG_TITLE", py_format primary_title);
       ("PRIMARY_TAG_TYPE", py_format primary_type) ].

(** [format_article] on any payload value. *)
Definition format_payload (article : pyval) : result (list N) :=
  rec ← payload_record article;
  Ok (join [LF] (map (λ e, kv e.1 e.2) rec)).

End Format.

(** The payloads on which nothing raises: a mapping whose [fields] is
    missing, falsy or a mapping, and whose [tags] is missing, falsy or a
    list of mappings with a string, if anything, under [id] and [title]. *)
Definition is_str (v : pyval) : bool :=
  match v with PStr _ => true | _ => false end.

Definition tag_ok (tag : pyval) : bool :=
  match tag with
  | PDict d =>
      is_str (from_option id (PStr []) (d !! lit "id"))
      && is_str (from_option id (PStr []) (d !! lit "title"))
  | _ => false
  end.

Definition encodable (article : pyval) : bool :=
  match article with
  | PDict d =>
      match py_or (from_option id (PDict ∅) (d !! lit "fields")) (PDict ∅),
            py_or (from_option id (PList []) (d !! lit "tags")) (PList []) with
      | PDict _, PList items => forallb tag_ok items
      | _, _ => false
      end
  | _ => false
  end.

Definition is_dict (v : pyval) : bool :=
  match v with PDict _ => true | _ => false end.

(** [tag.get(key, "")] on a tag that is a mapping, and the text of a value
    that is a string. *)
Definition tag_get (key : string) (tag : pyval) : pyval :=
  match tag with
  | PDict d => from_option id (PStr []) (d !! lit key)
  | _ => PStr []
  end.

Definition text_of (v : pyval) : list N :=
  match v with PStr s => s | _ => [] end.

(** The [fields] mapping the encoder reads, when there is one. *)
Definition fields_of (article : pyval) : option (gmap (list N) pyval) :=
  match article with
  | PDict d =>
      match py_or (from_option id (PDict ∅) (d !! lit "fields")) (PDict ∅) with
      | PDict f => Some f
      | _ => None
      end
  | _ => None
  end.

(** The payload of a typed article. *)
Definition of_member {A : Type} (f : A → pyval) (m : member A) : option pyval :=
  match m with
  | Absent => None
  | Null => Some PNone
  | Present a => Some (f a)
  end.

Definition of_dict (d : gmap (list N) (list N)) : pyval := PDict (PStr <$> d).

Definition put (key : string) (v : option pyval) (d : gmap (list N) pyval)
  : gmap (list N) pyval :=
  match v with
  | Some v => <[lit key := v]> d
  | None => delete (lit key) d
  end.

Definition of_article (a : article) : pyval :=
  PDict (put "fields" (of_member of_dict (fields a))
           (put "tags" (of_member (λ l, PList (map of_dict l)) (tags a))
              (PStr <$> members a))).

End Payload.

(** A payload whose only tag has a null id, and one that is an id and
    nothing else. *)
Definition null_tag_id : Payload.pyval :=
  Payload.PDict {[ lit "id" := Payload.PStr (lit "news/2024/jan/08/tag");
                   lit "tags" := Payload.PList
                     [Payload.PDict {[ lit "id" := Payload.PNone ]}] ]}.

Definition id_only : Payload.pyval :=
  Payload.PDict {[ lit "id" := Payload.PStr (lit "news/2024/jan/09/bare");
                   lit "fields" := Payload.PNone ]}.

(** A stand-in for the text [str] gives of lists and mappings. *)
Definition some_repr (v : Payload.pyval) : list N := lit "[...]".

(** ** The collector against a feed that changes *)

Module Feed.

Section FeedLoop.

Variable quota : nat.
Variable page_size : nat.

(** The content source at each request of the run: [feed n] answers the
    request number [n]. *)
Variable feed : nat → list N → nat → nat → list article.

(** The [while] loop, each pass asking the feed anew. *)
Fixpoint while_loop_feed (fuel tick : nat) (target_name gurdian_id : list N)
    (count page : nat) (st : state) : run :=
  if quota <=? count then Finished count st
  else match fuel with
       | 0 => Running count page st
       | S fuel' =>
           match iteration quota page_size (feed tick)
                   target_name gurdian_id count page st with
           | Break count' st' => Finished count' st'
           | Again count' page' st' =>
               while_loop_feed fuel' (S tick) target_name gurdian_id count' page' st'
           end
       end.

Definition collect_section_feed (fuel : nat) (target_name gurdian_id : list N)
    (stored : gmap (list N) (list N)) : run :=
  while_loop_feed fuel 0 target_name gurdian_id 0 1 {| files := stored; trace := [] |}.

End FeedLoop.


End Feed.
Import Feed.


Example lit_ex : lit "a:b" = [97; 58; 98]%N.
Proof. reflexivity. Qed.
Example strip_ex : strip (lit "  a b " ++ [LF; 9%N]) = lit "a b".
Proof. reflexivity. Qed.
Example split_ex :
  split_lf (lit "a" ++ [LF] ++ lit "b" ++ [LF]) = [lit "a"; lit "b"; []].
Proof. reflexivity. Qed.
Example str_of_nat_ex : str_of_nat 0 = lit "0" /\ str_of_nat 1204 = lit "1204".
Proof. split; reflexivity. Qed.

(** * Properties *)

(** ** Strings *)

Section StrFacts.

Implicit Types (c : char) (s l k v : str).

Lemma is_space_not_colon c : is_space c = true → c ≠ COLON.
Proof. intros H ->. discriminate H. Qed.

Lemma split_lf_cons s : ∃ l ls, split_lf s = l :: ls.
Proof.
  induction s as [|c s IH]; simpl; [by eauto|].
  destruct (N.eqb c LF); [by eauto|].
  destruct IH as (l & ls & ->). by eauto.
Qed.

Lemma split_lf_snoc_inv s : ∃ ls l, split_lf s = ls ++ [l].
Proof.
  destruct (split_lf_cons s) as (l & ls & ->).
  destruct (exists_last (l := l :: ls)) as (ls' & l' & ->); [done|by eauto].
Qed.

(** A character appended to the text either opens a new line or extends the
    last one. *)
Lemma split_lf_snoc s c ls l :
  split_lf s = ls ++ [l] →
  split_lf (s ++ [c]) = if N.eqb c LF then ls ++ [l; []] else ls ++ [l ++ [c]].
Proof.
  revert ls l. induction s as [|a s IH]; intros ls l E; simpl in *.
  - destruct ls as [|? [|]]; simplify_eq/=. by destruct (N.eqb c LF).
  - destruct (split_lf_snoc_inv s) as (ls0 & l0 & E0).
    specialize (IH _ _ E0). rewrite E0 in E. rewrite IH.
    destruct (N.eqb a LF).
    + destruct ls as [|x ls]; simplify_eq/=.
      { by destruct ls0. }
      assert (ls0 = ls ∧ l0 = l) as [-> ->] by (by apply app_inj_tail).
      by destruct (N.eqb c LF).
    + destruct ls0 as [|x0 ls0]; simpl in *.
      * destruct ls as [|x [|]]; simplify_eq/=.
        by destruct (N.eqb c LF).
      * destruct ls as [|x ls]; simplify_eq/=.
        { by destruct ls0. }
        assert (ls0 = ls ∧ l0 = l) as [-> ->] by (by apply app_inj_tail).
        by destruct (N.eqb c LF).
Qed.

Lemma lstrip_space c s : is_space c = true → lstrip (c :: s) = lstrip s.
Proof. intros H. simpl. by rewrite H. Qed.

Lemma rstrip_snoc_space s c : is_space c = true → rstrip (s ++ [c]) = rstrip s.
Proof. intros H. unfold rstrip. by rewrite rev_unit, lstrip_space. Qed.

Lemma strip_cons_space c s : is_space c = true → strip (c :: s) = strip s.
Proof. intros H. unfold strip. by rewrite lstrip_space. Qed.

Lemma strip_snoc_space s c : is_space c = true → strip (s ++ [c]) = strip s.
Proof.
  intros H. unfold strip. induction s as [|a s IH]; simpl.
  - by rewrite H.
  - destruct (is_space a); [done|].
    by apply (rstrip_snoc_space (a :: s)).
Qed.

(** What [lstrip] and [rstrip] remove is white space. *)
Lemma lstrip_split s : ∃ ws, s = ws ++ lstrip s ∧ Forall (λ c, is_space c = true) ws.
Proof.
  induction s as [|c s (ws & E & Hws)]; simpl.
  - by exists [].
  - destruct (is_space c) eqn:Hc.
    + exists (c :: ws). split; [by rewrite E at 1|by constructor].
    + by exists [].
Qed.

Lemma rstrip_split s : ∃ ws, s = rstrip s ++ ws ∧ Forall (λ c, is_space c = true) ws.
Proof.
  destruct (lstrip_split (rev s)) as (ws & E & Hws).
  exists (rev ws). split.
  - unfold rstrip. rewrite <- rev_app_distr, <- E. by rewrite rev_involutive.
  - by apply Forall_rev.
Qed.

End StrFacts.

(** ** The decoder, line by line *)

Section DecoderFacts.

Implicit Types (c : char) (s l k v line : str) (m : gmap str str).

Lemma parse_lines_app ls1 ls2 m :
  parse_lines (ls1 ++ ls2) m = parse_lines ls2 (parse_lines ls1 m).
Proof. apply fold_left_app. Qed.

Lemma split_colon_cons_space c l :
  is_space c = true →
  split_colon (c :: l) = (λ kv, (c :: kv.1, kv.2)) <$> split_colon l.
Proof.
  intros H%is_space_not_colon. simpl.
  destruct (N.eqb_spec c COLON) as [|_]; [done|].
  by destruct (split_colon l) as [[k v]|].
Qed.

Lemma split_colon_snoc l c :
  c ≠ COLON →
  split_colon (l ++ [c]) = (λ kv, (kv.1, kv.2 ++ [c])) <$> split_colon l.
Proof.
  intros Hc. induction l as [|a l IH]; simpl.
  - by destruct (N.eqb_spec c COLON).
  - destruct (N.eqb a COLON); [done|].
    rewrite IH. by destruct (split_colon l) as [[k v]|].
Qed.

Lemma parse_line_cons_space c l m :
  is_space c = true → parse_line m (c :: l) = parse_line m l.
Proof.
  intros H. unfold parse_line. rewrite split_colon_cons_space by done.
  destruct (split_colon l) as [[k v]|]; simpl; [|done].
  by rewrite strip_cons_space.
Qed.

Lemma parse_line_snoc_space l c m :
  is_space c = true → parse_line m (l ++ [c]) = parse_line m l.
Proof.
  intros H. unfold parse_line.
  rewrite split_colon_snoc by by apply is_space_not_colon.
  destruct (split_colon l) as [[k v]|]; simpl; [|done].
  by rewrite strip_snoc_space.
Qed.

Lemma parse_lines_cons_space c s m :
  is_space c = true →
  parse_lines (split_lf (c :: s)) m = parse_lines (split_lf s) m.
Proof.
  intros H. simpl. destruct (N.eqb c LF); [done|].
  destruct (split_lf_cons s) as (l & ls & ->). simpl.
  by rewrite parse_line_cons_space.
Qed.

Lemma parse_lines_snoc_space s c m :
  is_space c = true →
  parse_lines (split_lf (s ++ [c])) m = parse_lines (split_lf s) m.
Proof.
  intros H. destruct (split_lf_snoc_inv s) as (ls & l & E).
  rewrite (split_lf_snoc _ _ _ _ E), E.
  destruct (N.eqb c LF).
  - by rewrite !parse_lines_app.
  - rewrite !parse_lines_app. simpl. by rewrite parse_line_snoc_space.
Qed.

Lemma parse_lines_lstrip s m :
  parse_lines (split_lf (lstrip s)) m = parse_lines (split_lf s) m.
Proof.
  induction s as [|c s IH]; [done|].
  cbn [lstrip]. destruct (is_space c) eqn:Hc; [|done].
  by rewrite IH, parse_lines_cons_space.
Qed.

Lemma parse_lines_app_spaces s ws m :
  Forall (λ c, is_space c = true) ws →
  parse_lines (split_lf (s ++ ws)) m = parse_lines (split_lf s) m.
Proof.
  intros Hws. revert s. induction Hws as [|c ws Hc _ IH]; intros s.
  - by rewrite app_nil_r.
  - rewrite (cons_middle c), app_assoc, IH. by apply parse_lines_snoc_space.
Qed.

Lemma parse_lines_rstrip s m :
  parse_lines (split_lf (rstrip s)) m = parse_lines (split_lf s) m.
Proof.
  destruct (rstrip_split s) as (ws & E & Hws).
  rewrite E at 2. by rewrite parse_lines_app_spaces.
Qed.

(** The [content.strip()] before the split never changes the result. *)
Lemma parse_lines_strip s m :
  parse_lines (split_lf (strip s)) m = parse_lines (split_lf s) m.
Proof. unfold strip. by rewrite parse_lines_rstrip, parse_lines_lstrip. Qed.

(** [line.split(':', 1)] cuts at the first colon. *)
Lemma split_colon_find line :
  split_colon line =
  (λ p, (take p.1 line, drop (S p.1) line)) <$> list_find (λ c, c = COLON) line.
Proof.
  induction line as [|a l IH]; [done|].
  cbn [split_colon list_find]. rewrite IH.
  destruct (N.eqb_spec a COLON) as [->|Hne].
  - by rewrite decide_True.
  - case_decide; [done|].
    by destruct (list_find (λ c, c = COLON) l) as [[i x]|].
Qed.

Lemma entry_split_colon line :
  DecodeSpec.entry line = (λ e, (strip e.1, strip e.2)) <$> split_colon line.
Proof.
  unfold DecodeSpec.entry. rewrite split_colon_find.
  by destruct (list_find (λ c, c = COLON) line) as [[i x]|].
Qed.

Lemma parse_line_entry line m :
  parse_line m line =
  match DecodeSpec.entry line with
  | Some (k, v) => <[k := v]> m
  | None => m
  end.
Proof.
  unfold parse_line. rewrite entry_split_colon.
  by destruct (split_colon line) as [[k v]|].
Qed.

Lemma parse_lines_entries lines m :
  parse_lines lines m = list_to_map (rev (omap DecodeSpec.entry lines)) ∪ m.
Proof.
  revert m. induction lines as [|line lines IH]; intros m.
  - simpl. by rewrite (left_id_L ∅ (∪)).
  - cbn [parse_lines fold_left]. fold (parse_lines lines (parse_line m line)).
    rewrite IH, parse_line_entry. cbn [omap list_omap].
    destruct (DecodeSpec.entry line) as [[k v]|]; [|done].
    cbn [rev]. rewrite list_to_map_app, <- (assoc_L (∪)).
    f_equal. simpl. by rewrite insert_union_singleton_l, insert_empty.
Qed.

Lemma parse_content_entries label content :
  parse_content label content =
  DecodeSpec.entries content ∪ {[ lit "label" := label ]}.
Proof.
  unfold parse_content.
  by rewrite parse_lines_strip, parse_lines_entries.
Qed.

End DecoderFacts.

(** ** The encoder's lines, read back *)

Section CodecFacts.

Implicit Types (c : char) (s l k v line : str) (m : gmap str str).
Implicit Types (rec : list (string * str)).

Lemma split_lf_no_lf l : LF ∉ l → split_lf l = [l].
Proof.
  induction l as [|c l IH]; intros H; [done|].
  apply not_elem_of_cons in H as [Hc Hl]. simpl.
  destruct (N.eqb_spec c LF); [done|]. by rewrite IH.
Qed.

Lemma split_lf_app_lf l s : LF ∉ l → split_lf (l ++ LF :: s) = l :: split_lf s.
Proof.
  induction l as [|c l IH]; intros H; [done|].
  apply not_elem_of_cons in H as [Hc Hl]. simpl.
  destruct (N.eqb_spec c LF); [done|]. by rewrite IH.
Qed.

Lemma split_lf_join (ls : list str) :
  ls ≠ [] → Forall (λ l, LF ∉ l) ls → split_lf (join [LF] ls) = ls.
Proof.
  intros Hne Hls. induction Hls as [|l ls Hl Hls IH]; [done|].
  destruct ls as [|l' ls].
  - simpl. by apply split_lf_no_lf.
  - change (join [LF] (l :: l' :: ls)) with (l ++ LF :: join [LF] (l' :: ls)).
    rewrite split_lf_app_lf by done. by rewrite IH.
Qed.

Lemma split_colon_app k rest :
  COLON ∉ k → split_colon (k ++ COLON :: rest) = Some (k, rest).
Proof.
  induction k as [|c k IH]; intros H; [done|].
  apply not_elem_of_cons in H as [Hc Hk]. simpl.
  destruct (N.eqb_spec c COLON); [done|]. by rewrite IH.
Qed.

Lemma kv_no_lf (key : string) v : LF ∉ lit key → LF ∉ v → LF ∉ kv key v.
Proof.
  intros Hk Hv. unfold kv. rewrite !not_elem_of_app. split_and!; [done| |done].
  compute_done.
Qed.

Lemma split_colon_kv (key : string) v :
  COLON ∉ lit key → split_colon (kv key v) = Some (lit key, 32%N :: v).
Proof. intros Hk. by apply (split_colon_app (lit key) (32%N :: v)). Qed.

(** A line of the encoder gives back its key and its trimmed value. *)
Lemma parse_line_kv (key : string) v m :
  good_key (lit key) → parse_line m (kv key v) = <[lit key := strip v]> m.
Proof.
  intros (Hc & _ & Hs). unfold parse_line. rewrite split_colon_kv by done.
  by rewrite Hs, strip_cons_space.
Qed.



Lemma record_keys_spec a : (article_record a).*1 = record_keys.
Proof. reflexivity. Qed.

Lemma record_keys_good : Forall (λ key, good_key (lit key)) record_keys.
Proof. compute_done. Qed.

Lemma record_keys_NoDup : NoDup (lit "label" :: map lit record_keys).
Proof. compute_done. Qed.

Lemma record_keys_good_for a :
  Forall (λ e : string * str, good_key (lit e.1)) (article_record a).
Proof.
  pose proof record_keys_good as Hk.
  rewrite <- (record_keys_spec a) in Hk.
  by apply (Forall_fmap fst (λ key, good_key (lit key))) in Hk.
Qed.


(** With no line feed in any value, the lines of the encoded text are the
    encoder's fourteen lines. *)
Lemma split_lf_format_article a :
  Forall (λ e, LF ∉ e.2) (article_record a) →
  split_lf (format_article a) = article_lines a.
Proof.
  intros Hv. unfold format_article. apply split_lf_join; [done|].
  unfold article_lines. apply Forall_fmap.
  pose proof (record_keys_good_for a) as Hk.
  assert (Forall (λ e : string * str, good_key (lit e.1) ∧ LF ∉ e.2)
                 (article_record a)) as H by (by apply Forall_and).
  eapply Forall_impl; [exact H|].
  intros [key v] [(_ & Hl & _) Hlv]. by apply kv_no_lf.
Qed.




End CodecFacts.

(** ** The decoder: line semantics, label, read failures *)

Section DecoderClaims.

Implicit Types (s l k v line label content : str) (m : gmap str str).

(** In [entries], the last line with a given key decides its value. *)
Lemma entries_last_wins content before line after k v :
  split_lf content = before ++ line :: after →
  DecodeSpec.entry line = Some (k, v) →
  Forall (λ l, ∀ v', DecodeSpec.entry l ≠ Some (k, v')) after →
  DecodeSpec.entries content !! k = Some v.
Proof.
  intros E Hl Hafter. unfold DecodeSpec.entries. rewrite E.
  rewrite omap_app. cbn [omap list_omap]. rewrite Hl.
  rewrite rev_app_distr. cbn [rev]. rewrite <- app_assoc.
  rewrite list_to_map_app. cbn [app].
  rewrite lookup_union_r.
  - by rewrite list_to_map_cons, lookup_insert_eq.
  - apply not_elem_of_list_to_map_1.
    rewrite list_elem_of_fmap. intros ([k' v'] & -> & Hin).
    apply list_elem_of_In, in_rev, list_elem_of_In in Hin.
    apply list_elem_of_omap in Hin as (l & Hl' & El).
    rewrite Forall_forall in Hafter. by apply (Hafter l Hl' v').
Qed.

Lemma entry_no_colon line : COLON ∉ line → DecodeSpec.entry line = None.
Proof.
  intros H. rewrite entry_split_colon.
  destruct (split_colon line) as [[k v]|] eqn:E; [|done].
  exfalso. apply H. clear H. revert k v E.
  induction line as [|c l IH]; intros k v E; [done|]. simpl in E.
  destruct (N.eqb_spec c COLON) as [->|_]; [by left|].
  destruct (split_colon l) as [[k' v']|]; [|done].
  right. by eapply IH.
Qed.

(** C6. Decode line semantics: on every text, [parse_content] gives the
    mapping the specification describes -- the text is split into lines,
    each line with a colon is cut once at its first colon into key and
    value, both trimmed, and inserted, a later line overriding an earlier
    one with the same key ([DecodeSpec.entries]) -- together with the
    [label] entry for a text that supplies none.  The last line of a key
    decides its value, and a line without colon contributes nothing. *)
Theorem parse_content_line_semantics label content :
  parse_content label content
    = DecodeSpec.entries content ∪ {[ lit "label" := label ]}
  ∧ (∀ before line after k v,
       split_lf content = before ++ line :: after →
       split_colon line = Some (k, v) →
       Forall (λ l, ∀ k' v', split_colon l = Some (k', v') → strip k' ≠ strip k) after →
       parse_content label content !! strip k = Some (strip v))
  ∧ (∀ line m, COLON ∉ line → parse_line m line = m).
Proof.
  split_and!.
  - apply parse_content_entries.
  - intros before line after k v E Hl Hafter.
    rewrite parse_content_entries. apply lookup_union_Some_l.
    apply (entries_last_wins _ _ _ _ _ _ E).
    + by rewrite entry_split_colon, Hl.
    + eapply Forall_impl; [exact Hafter|]. intros l Hk v'.
      rewrite entry_split_colon.
      destruct (split_colon l) as [[k' v'']|] eqn:El; [|done]. simpl.
      intros [= Hkk _]. by apply (Hk k' v'').
  - intros line m H. rewrite parse_line_entry. by rewrite entry_no_colon.
Qed.


End DecoderClaims.

Section CodecClaims.

Import Samples.
Implicit Types (v label content : str) (m : gmap str str) (a : article).



(** C4, as stated, fails: when the file cannot be read, [parse_article]
    does not raise the error of the read; it returns [None]. *)
Lemma read_failure_counterexample :
  no_file stored_at = Raised FileNotFoundError
  ∧ parse_article no_file stored_at = Returned None
  ∧ parse_article no_file stored_at ≠ Raised FileNotFoundError.
Proof. by split_and!. Qed.

(** C4 (amended). Decode error behaviour: [parse_article] never raises;
    on a file that can be read it returns a mapping whatever the lines of
    the text are, and on a file that cannot be read it catches the error
    and returns [None]. *)
Theorem parse_article_never_raises (fs : filesystem) (file_path : path) :
  (∀ e, parse_article fs file_path ≠ Raised e)
  ∧ (∀ content, fs file_path = Returned content →
       parse_article fs file_path
         = Returned (Some (parse_content (parent_name file_path) content)))
  ∧ (∀ e, fs file_path = Raised e →
       parse_article fs file_path = Returned None).
Proof.
  unfold parse_article. split_and!.
  - intros e. by destruct (fs file_path).
  - by intros content ->.
  - by intros e ->.
Qed.

Lemma parse_article_never_raises_witness :
  parse_article (one_file (lit "no separator here")) stored_at
    = Returned (Some {[ lit "label" := lit "news" ]})
  ∧ parse_article no_file stored_at = Returned None.
Proof.
  split.
  - apply (proj1 (proj2 (parse_article_never_raises
                           (one_file (lit "no separator here")) stored_at))
                 (lit "no separator here")).
    reflexivity.
  - apply (proj2 (proj2 (parse_article_never_raises no_file stored_at))
                 FileNotFoundError).
    reflexivity.
Defined.

Lemma parse_content_line_semantics_witness :
  parse_content (lit "news")
      (lit "a: 1" ++ [LF] ++ lit "noise" ++ [LF] ++ lit " a : 2 ")
    !! lit "a" = Some (lit "2").
Proof.
  apply (proj1 (proj2 (parse_content_line_semantics (lit "news")
           (lit "a: 1" ++ [LF] ++ lit "noise" ++ [LF] ++ lit " a : 2 ")))
         [lit "a: 1"; lit "noise"] (lit " a : 2 ") [] (lit " a ") (lit " 2 "));
    [reflexivity | reflexivity | constructor].
Defined.



(** C7. Tag and primary-tag derivation: with the tags
    [{id: t1, title: T1}, {id: t2, title: T2}] the encoded text ends with
    the lines [TAGS_IDS: t1,t2], [TAGS_TITLES: T1,T2], [PRIMARY_TAG_ID: t1],
    [PRIMARY_TAG_TITLE: T1] (and an empty [PRIMARY_TAG_TYPE]); with no tags
    (missing, null or empty) all five tag lines have an empty value, without
    any comma. *)
Theorem format_article_tag_lines (top : gmap str str) (fs : member (gmap str str)) :
  (let a := Article top fs (Present [tag "t1" "T1"; tag "t2" "T2"]) in
   format_article a
   = join [LF] (take 9 (article_lines a)
                ++ [ lit "TAGS_IDS: t1,t2"; lit "TAGS_TITLES: T1,T2";
                     lit "PRIMARY_TAG_ID: t1"; lit "PRIMARY_TAG_TITLE: T1";
                     lit "PRIMARY_TAG_TYPE: " ]))
  ∧ Forall (λ no_tags,
       let a := Article top fs no_tags in
       format_article a
       = join [LF] (take 9 (article_lines a)
                    ++ [ lit "TAGS_IDS: "; lit "TAGS_TITLES: ";
                         lit "PRIMARY_TAG_ID: "; lit "PRIMARY_TAG_TITLE: ";
                         lit "PRIMARY_TAG_TYPE: " ]))
      [Absent; Null; Present []].
Proof. split; [reflexivity|]. repeat constructor. Qed.

Lemma get_missing (d : gmap str str) (key : string) :
  d !! lit key = None → get d key = [].
Proof. unfold get. by intros ->. Qed.

End CodecClaims.

(** ** The collection loop *)

Section LoopFacts.

Variable quota : nat.
Variable page_size : nat.
Variable source : list N → nat → nat → list article.

Implicit Types (target gid : list N) (count page fuel : nat) (st : state).

(** Inside [while count < quota] the inner [for] never breaks: it leaves
    its variable bound to the last result of the page. *)
Lemma for_article_last count first rest :
  count < quota →
  for_article quota count first rest = default first (last rest).
Proof.
  intros H. revert first. induction rest as [|next rest IH]; intros first; simpl.
  - by destruct (quota <=? count).
  - destruct (Nat.leb_spec quota count); [lia|].
    rewrite IH. rewrite last_cons. by destruct (last rest).
Qed.

(** The pass that finds its article already stored changes nothing but the
    trace, and asks for the same page again. *)
Lemma iteration_skip target gid count page st first rest :
  source gid page_size page = first :: rest →
  is_Some (files st !! (art_id target page count
                          (for_article quota count first rest) ++ lit ".txt")) →
  iteration quota page_size source target gid count page st
  = Again count page (log (Request page) st).
Proof.
  intros E [content Hin]. unfold iteration. rewrite E.
  cbn [log files]. by rewrite Hin.
Qed.

(** From there the loop never leaves: whatever the fuel, it is still at the
    same count and page, having asked for that page once per pass. *)
Lemma while_loop_stuck target gid count page first rest fuel st :
  count < quota →
  source gid page_size page = first :: rest →
  is_Some (files st !! (art_id target page count
                          (for_article quota count first rest) ++ lit ".txt")) →
  while_loop quota page_size source fuel target gid count page st
  = Running count page
      {| files := files st; trace := trace st ++ replicate fuel (Request page) |}.
Proof.
  intros Hlt E. revert st. induction fuel as [|fuel IH]; intros st Hin.
  - simpl. destruct (Nat.leb_spec quota count); [lia|].
    destruct st. simpl. by rewrite app_nil_r.
  - cbn [while_loop]. destruct (Nat.leb_spec quota count); [lia|].
    rewrite (iteration_skip _ _ _ _ _ _ _ E Hin).
    rewrite IH by done. cbn [log files trace replicate].
    by rewrite <- app_assoc.
Qed.

(** A run with a positive quota on a directory that already holds the
    article of page 1 never leaves the loop -- for any quota, the one of the
    source included. *)
Lemma collect_section_rerun_stuck target gid first rest stored fuel :
  0 < quota →
  source gid page_size 1 = first :: rest →
  is_Some (stored !! (art_id target 1 0 (default first (last rest)) ++ lit ".txt")) →
  collect_section quota page_size source fuel target gid stored
  = Running 0 1 {| files := stored; trace := replicate fuel (Request 1) |}.
Proof.
  intros Hq E Hin. unfold collect_section.
  rewrite (while_loop_stuck target gid 0 1 first rest fuel); [done..|].
  cbn [files]. by rewrite for_article_last.
Qed.

(** Once the quota is met the loop is not entered. *)
Lemma while_loop_at_quota target gid count page fuel st :
  quota ≤ count →
  while_loop quota page_size source fuel target gid count page st = Finished count st.
Proof.
  intros H. destruct fuel; simpl; by destruct (Nat.leb_spec quota count); [|lia].
Qed.

(** A pass stores at most one article of its page: the last one. *)
Lemma iteration_files target gid count page st first rest :
  count < quota →
  source gid page_size page = first :: rest →
  let after := files (control_state
                        (iteration quota page_size source target gid count page st)) in
  after = files st
  ∨ ∃ name, files st !! name = None
            ∧ after = <[ name := format_article (default first (last rest)) ]> (files st).
Proof.
  intros Hlt E. unfold iteration. rewrite E, for_article_last by done.
  cbn [log files].
  destruct (files st !! _) eqn:Hin; [by left|].
  right. eexists. split; [exact Hin|].
  by destruct (quota <=? count + 1).
Qed.

(** The sleep stands between a write and the request of the next page:
    a pass that moves to another page ends with it, a pass that leaves the
    loop or repeats its page does not. *)
Lemma iteration_sleep target gid count page st :
  match iteration quota page_size source target gid count page st with
  | Break _ st' => last (trace st') ≠ Some Sleep
  | Again _ page' st' =>
      (page' = page + 1 ∧ last (trace st') = Some Sleep)
      ∨ (page' = page ∧ last (trace st') = Some (Request page))
  end.
Proof.
  unfold iteration. destruct (source gid page_size page) as [|first rest].
  - cbn beta iota delta [log trace]. by rewrite last_snoc.
  - cbn beta iota zeta delta [log files]. destruct (files st !! _).
    + right. cbn beta iota delta [log trace]. by rewrite last_snoc.
    + destruct (quota <=? count + 1).
      * cbn beta iota delta [log write_text trace]. by rewrite last_snoc.
      * left. cbn beta iota delta [log write_text trace]. by rewrite last_snoc.
Qed.

End LoopFacts.

Section CollectorClaims.

Import Samples.

(** C2 (code defect). Idempotence of collection: a first run with quota 2
    on two pages of three articles stores two files; the second run on
    those files never finishes.  The article of page 1 is already stored,
    so the pass ends in [continue], which belongs to the [while] loop: the
    same page is requested again, for ever (the source answering page 1 as
    before).  No file is added or changed, but the run does not terminate. *)
Theorem rerun_never_finishes :
  collect_section 2 3 two_pages 5 (lit "news") (lit "news") ∅
    = Finished 2 {| files := first_run_files; trace := first_run_trace |}
  ∧ ∀ fuel,
      collect_section 2 3 two_pages fuel (lit "news") (lit "news") first_run_files
      = Running 0 1 {| files := first_run_files;
                       trace := replicate fuel (Request 1) |}.
Proof.
  split; [by vm_compute|].
  intros fuel. unfold collect_section.
  by rewrite (while_loop_stuck 2 3 two_pages (lit "news") (lit "news") 0 1
                (plain "a1") [plain "a2"; plain "a3"] fuel)
    by (lia || done || by vm_compute).
Qed.

(** C3 (code defect). Quota boundary: with quota 0 no request is made and
    no file written, whatever the source.  With quota 2 and pages of three
    articles, however, the run writes one article of page 1 only (the last
    one), sleeps and requests page 2: the statements that store an article
    stand after the [for] loop, not in it. *)
Theorem quota_boundary_second_page_requested :
  (∀ page_size source fuel target gid stored,
     collect_section 0 page_size source fuel target gid stored
     = Finished 0 {| files := stored; trace := [] |})
  ∧ run_state (collect_section 2 3 two_pages 5 (lit "news") (lit "news") ∅)
    = {| files := first_run_files; trace := first_run_trace |}
  ∧ Request 2 ∈ first_run_trace
  ∧ first_run_files !! lit "a1.txt" = None
  ∧ first_run_files !! lit "a2.txt" = None.
Proof.
  split_and!.
  - intros. unfold collect_section. by apply while_loop_at_quota.
  - by vm_compute.
  - compute_done.
  - by vm_compute.
  - by vm_compute.
Qed.

(** C5 (code defect). Inter-page throttle: between the two pages of a fresh
    run there is one sleep, and none after the last write; but when the
    article of page 1 is already stored, the page is skipped with neither
    a sleep nor a next page: the trace is page 1 requested over and over. *)
Theorem skipped_page_not_throttled :
  trace (run_state (collect_section 2 3 two_pages 5 (lit "news") (lit "news") ∅))
    = [ Request 1; Write (lit "a3.txt") (format_article (plain "a3")); Sleep;
        Request 2; Write (lit "b3.txt") (format_article (plain "b3")) ]
  ∧ ∀ fuel,
      let r := collect_section 2 3 two_pages fuel (lit "news") (lit "news")
                 {[ lit "a3.txt" := format_article (plain "a3") ]} in
      trace (run_state r) = replicate fuel (Request 1)
      ∧ (Sleep ∉ trace (run_state r))
      ∧ (Request 2 ∉ trace (run_state r)).
Proof.
  split; [by vm_compute|].
  intros fuel. unfold collect_section.
  rewrite (while_loop_stuck 2 3 two_pages (lit "news") (lit "news") 0 1
             (plain "a1") [plain "a2"; plain "a3"] fuel)
    by (lia || done || by vm_compute).
  cbn [run_state trace app]. split_and!; [done| |].
  - intros [? _]%elem_of_replicate. done.
  - intros [? _]%elem_of_replicate. done.
Qed.

(** C10. Fallback storage key: when the article a pass stores has no [id],
    or an empty one, its file is named [<target_name>_<page>_<count>.txt],
    which is never the bare [.txt]; the pass writes the encoded article
    under that name when no such file exists. *)
Theorem art_id_fallback quota page_size source target gid count page st first rest :
  count < quota →
  source gid page_size page = first :: rest →
  members (default first (last rest)) !! lit "id" = None
  ∨ members (default first (last rest)) !! lit "id" = Some [] →
  let art := default first (last rest) in
  let key := target ++ lit "_" ++ str_of_nat page ++ lit "_" ++ str_of_nat count in
  art_id target page count art = key
  ∧ key ≠ []
  ∧ (files st !! (key ++ lit ".txt") = None →
     files (control_state
              (iteration quota page_size source target gid count page st))
     = <[ key ++ lit ".txt" := format_article art ]> (files st)).
Proof.
  intros Hlt E Hid art key.
  assert (art_id target page count art = key) as Hkey.
  { unfold art_id, get, art. by destruct Hid as [-> | ->]. }
  split_and!; [done| |].
  - unfold key. by destruct target.
  - intros Hnone. unfold iteration. rewrite E, for_article_last by done.
    fold art. rewrite Hkey. cbn [log files]. rewrite Hnone.
    by destruct (quota <=? count + 1).
Qed.

Lemma art_id_fallback_witness :
  files (control_state (iteration 5 50 one_anonymous (lit "news") (lit "news") 0 1
                          {| files := ∅; trace := [] |}))
  = {[ lit "news_1_0.txt" := format_article anonymous ]}.
Proof.
  apply (proj2 (proj2 (art_id_fallback 5 50 one_anonymous (lit "news") (lit "news")
                         0 1 {| files := ∅; trace := [] |}
                         (plain "a1") [anonymous]
                         ltac:(lia) eq_refl (or_introl eq_refl)))).
  reflexivity.
Defined.

End CollectorClaims.

(** * Further properties of the codec *)

(** ** More on [strip] and [split] *)

Section TrimFacts.

Implicit Types (c : char) (s t l k v line : str).

Lemma lstrip_nonspace c s : is_space c = false → lstrip (c :: s) = c :: s.
Proof. intros H. simpl. by rewrite H. Qed.

Lemma lstrip_snoc_nonspace s c :
  is_space c = false → lstrip (s ++ [c]) = lstrip s ++ [c].
Proof.
  intros H. induction s as [|a s IH]; simpl.
  - by rewrite H.
  - by destruct (is_space a).
Qed.

Lemma rstrip_cons_nonspace c s :
  is_space c = false → rstrip (c :: s) = c :: rstrip s.
Proof.
  intros H. unfold rstrip. simpl.
  by rewrite lstrip_snoc_nonspace, rev_unit.
Qed.

Lemma lstrip_idem s : lstrip (lstrip s) = lstrip s.
Proof.
  induction s as [|c s IH]; simpl; [done|].
  destruct (is_space c) eqn:Hc; [done|]. simpl. by rewrite Hc.
Qed.

Lemma rstrip_idem s : rstrip (rstrip s) = rstrip s.
Proof. unfold rstrip. by rewrite rev_involutive, lstrip_idem. Qed.

(** [rstrip] keeps a text that starts with no white space that way. *)
Lemma lstrip_rstrip s : lstrip s = s → lstrip (rstrip s) = rstrip s.
Proof.
  destruct s as [|c s]; [done|]. intros Hfix.
  assert (is_space c = false) as Hc.
  { simpl in Hfix. destruct (is_space c); [|done].
    exfalso. apply (f_equal length) in Hfix. simpl in Hfix.
    destruct (lstrip_split s) as (ws & E & _).
    apply (f_equal length) in E. rewrite length_app in E. lia. }
  rewrite rstrip_cons_nonspace by done. by apply lstrip_nonspace.
Qed.

Lemma strip_idem s : strip (strip s) = strip s.
Proof.
  unfold strip. rewrite lstrip_rstrip by apply lstrip_idem. apply rstrip_idem.
Qed.

Lemma elem_of_lstrip c s : c ∈ lstrip s → c ∈ s.
Proof.
  destruct (lstrip_split s) as (ws & E & _). intros H.
  rewrite E. apply elem_of_app. by right.
Qed.

Lemma elem_of_rstrip c s : c ∈ rstrip s → c ∈ s.
Proof.
  destruct (rstrip_split s) as (ws & E & _). intros H.
  rewrite E. apply elem_of_app. by left.
Qed.

Lemma elem_of_strip c s : c ∈ strip s → c ∈ s.
Proof. intros H%elem_of_rstrip. by apply elem_of_lstrip. Qed.

(** The result of [strip] is clean when the text has no line feed. *)
Lemma strip_clean s : LF ∉ s → clean (strip s).
Proof.
  intros H. split; [|apply strip_idem].
  intros Hin. by apply H, elem_of_strip.
Qed.

Lemma split_lf_lines_no_lf s : Forall (λ l, LF ∉ l) (split_lf s).
Proof.
  induction s as [|c s IH]; simpl.
  - constructor; [|done]. by apply not_elem_of_nil.
  - destruct (N.eqb_spec c LF) as [->|Hne].
    + constructor; [|done]. by apply not_elem_of_nil.
    + destruct (split_lf_cons s) as (l & ls & E). rewrite E in *.
      inversion IH; subst. constructor; [|done].
      apply not_elem_of_cons. by split.
Qed.

Lemma split_lf_elem s l c : l ∈ split_lf s → c ∈ l → c ∈ s.
Proof.
  revert l. induction s as [|a s IH]; intros l; simpl.
  - intros ->%list_elem_of_singleton. by intros ?%elem_of_nil.
  - destruct (N.eqb a LF).
    + intros [->|Hl]%elem_of_cons Hc; [by apply elem_of_nil in Hc|].
      right. by eapply IH.
    + destruct (split_lf s) as [|l0 ls].
      * intros ->%list_elem_of_singleton ->%list_elem_of_singleton. by left.
      * intros [->|Hl]%elem_of_cons Hc.
        -- apply elem_of_cons in Hc as [->|Hc]; [by left|].
           right. apply (IH l0); [by left|done].
        -- right. apply (IH l); [by right|done].
Qed.

(** A line feed between two texts separates their lines. *)
Lemma split_lf_app s t : split_lf (s ++ LF :: t) = split_lf s ++ split_lf t.
Proof.
  induction s as [|c s IH]; [done|]. simpl.
  destruct (N.eqb c LF); [by rewrite IH|].
  rewrite IH. by destruct (split_lf_cons s) as (l & ls & ->).
Qed.

Lemma split_colon_Some line k v :
  split_colon line = Some (k, v) → line = k ++ COLON :: v ∧ COLON ∉ k.
Proof.
  revert k. induction line as [|c l IH]; intros k; [done|]. simpl.
  destruct (N.eqb_spec c COLON) as [->|Hne].
  - intros [= <- <-]. split; [done|apply not_elem_of_nil].
  - destruct (split_colon l) as [[k' v']|]; [|done].
    intros [= <- <-]. destruct (IH k' eq_refl) as [-> Hk].
    split; [done|]. apply not_elem_of_cons. by split.
Qed.

End TrimFacts.

(** ** What [parse_article] makes of any text *)

Section DecoderExtras.

Implicit Types (c : char) (s l k v line label content : str) (m : gmap str str).

(** Where an entry of the text comes from. *)
Lemma entries_lookup_inv content k v :
  DecodeSpec.entries content !! k = Some v →
  ∃ line k0 v0, line ∈ split_lf content ∧ split_colon line = Some (k0, v0)
                ∧ k = strip k0 ∧ v = strip v0.
Proof.
  unfold DecodeSpec.entries. intros H%elem_of_list_to_map_2.
  apply list_elem_of_In, in_rev, list_elem_of_In in H.
  apply list_elem_of_omap in H as (line & Hl & E).
  rewrite entry_split_colon in E.
  destruct (split_colon line) as [[k0 v0]|] eqn:El; [|done].
  simpl in E. injection E as <- <-. by exists line, k0, v0.
Qed.

Lemma parse_content_lookup_inv label content k v :
  parse_content label content !! k = Some v →
  (k = lit "label" ∧ v = label)
  ∨ ∃ line k0 v0, line ∈ split_lf content ∧ split_colon line = Some (k0, v0)
                  ∧ k = strip k0 ∧ v = strip v0.
Proof.
  rewrite parse_content_entries. intros [H|[_ H]]%lookup_union_Some_raw.
  - right. by apply entries_lookup_inv.
  - left. by apply lookup_singleton_Some in H as [<- <-].
Qed.

Lemma line_parts_clean content line k0 v0 :
  line ∈ split_lf content → split_colon line = Some (k0, v0) →
  good_key (strip k0) ∧ clean (strip v0).
Proof.
  intros Hl E. apply split_colon_Some in E as [-> Hk].
  pose proof (split_lf_lines_no_lf content) as Hlf.
  rewrite Forall_forall in Hlf. specialize (Hlf _ Hl).
  apply not_elem_of_app in Hlf as [Hlk Hlv].
  apply not_elem_of_cons in Hlv as [_ Hlv].
  split; [split|]; [|by apply strip_clean..].
  intros Hin. by apply Hk, elem_of_strip.
Qed.

(** X1. The [label] key is never missing from the result: its value is the
    directory name, or the trimmed value of a line of the text whose key
    is [label]. *)
Theorem parse_content_label_present label content :
  ∃ v, parse_content label content !! lit "label" = Some v
       ∧ (v = label
          ∨ ∃ line k0 v0, line ∈ split_lf content
                          ∧ split_colon line = Some (k0, v0)
                          ∧ strip k0 = lit "label" ∧ v = strip v0).
Proof.
  rewrite parse_content_entries.
  destruct (DecodeSpec.entries content !! lit "label") as [v|] eqn:E.
  - exists v. split; [by apply lookup_union_Some_l|].
    right. apply entries_lookup_inv in E as (line & k0 & v0 & ? & ? & ? & ?).
    by exists line, k0, v0.
  - exists label. split; [|by left].
    rewrite lookup_union_r by done. apply lookup_singleton_eq.
Qed.

(** X2. Every entry of the result other than the supplied label is trimmed
    text of one line: its key has no colon, and neither key nor value has a
    line feed or white space at either end. *)
Theorem parse_content_entries_trimmed label content k v :
  parse_content label content !! k = Some v →
  (k = lit "label" ∧ v = label) ∨ (good_key k ∧ clean v).
Proof.
  intros [H|(line & k0 & v0 & Hl & E & -> & ->)]%parse_content_lookup_inv;
    [by left|right].
  by eapply line_parts_clean.
Qed.

Lemma parse_content_entries_trimmed_witness :
  (lit "WEB_URL" = lit "label" ∧ lit "https://x.org/a" = lit "news")
  ∨ (good_key (lit "WEB_URL") ∧ clean (lit "https://x.org/a")).
Proof.
  apply (parse_content_entries_trimmed (lit "news")
           (lit "  WEB_URL :  https://x.org/a  ")).
  reflexivity.
Defined.

(** X3. White space around the text of a record -- blank lines before it,
    a final line feed, indentation -- never changes what is decoded. *)
Theorem parse_content_surrounding_space label content ws1 ws2 :
  Forall (λ c, is_space c = true) ws1 →
  Forall (λ c, is_space c = true) ws2 →
  parse_content label (ws1 ++ content ++ ws2) = parse_content label content.
Proof.
  intros H1 H2. unfold parse_content. rewrite !parse_lines_strip.
  rewrite app_assoc, parse_lines_app_spaces by done.
  induction H1 as [|c ws1 Hc _ IH]; [done|].
  rewrite <- app_comm_cons. by rewrite parse_lines_cons_space.
Qed.

Lemma parse_content_surrounding_space_witness :
  parse_content (lit "news") ([LF; 32%N] ++ lit "ID: a" ++ [13%N; LF; LF])
  = parse_content (lit "news") (lit "ID: a").
Proof.
  apply (parse_content_surrounding_space (lit "news") (lit "ID: a")
           [LF; 32%N] [13%N; LF; LF]); repeat constructor.
Defined.

(** X4. Decoding two texts joined by a line feed is decoding the first and
    then letting the lines of the second override it. *)
Theorem parse_content_append label first second :
  parse_content label (first ++ LF :: second)
  = parse_lines (split_lf second) (parse_content label first).
Proof.
  unfold parse_content. rewrite !parse_lines_strip.
  by rewrite split_lf_app, parse_lines_app.
Qed.

(** X5. A text without any colon decodes to the label alone. *)
Theorem parse_content_no_colon label content :
  COLON ∉ content → parse_content label content = {[ lit "label" := label ]}.
Proof.
  intros H. apply map_eq. intros k.
  destruct (parse_content label content !! k) as [v|] eqn:E.
  - apply parse_content_lookup_inv in E
      as [[-> ->]|(line & k0 & v0 & Hl & E & _)].
    + by rewrite lookup_singleton_eq.
    + exfalso. apply split_colon_Some in E as [-> _].
      apply H. apply (split_lf_elem _ _ _ Hl).
      apply elem_of_app. right. by left.
  - rewrite parse_content_entries in E.
    by apply lookup_union_None in E as [_ ->].
Qed.

Lemma parse_content_no_colon_witness :
  parse_content (lit "news") (lit "no separator" ++ [LF] ++ lit "anywhere")
  = {[ lit "label" := lit "news" ]}.
Proof.
  apply (parse_content_no_colon (lit "news")
           (lit "no separator" ++ [LF] ++ lit "anywhere")).
  compute_done.
Defined.

End DecoderExtras.

(** ** What comes back of an encoded article *)

Section EncoderExtras.

Import Samples.
Implicit Types (c : char) (s l k v line label content : str) (a : article).
Implicit Types (rec : list (string * str)).



Lemma record_key_not_label a key value :
  (key, value) ∈ article_record a → lit key ≠ lit "label".
Proof.
  intros Hin E. pose proof record_keys_NoDup as Hnd.
  apply NoDup_cons_1_1 in Hnd. apply Hnd. rewrite <- E.
  rewrite <- (record_keys_spec a).
  apply (list_elem_of_fmap_2 lit), (list_elem_of_fmap_2 fst _ (key, value) Hin).
Qed.


(** X7. Only clean values come back: if a key of the record decodes to the
    very value it was encoded from, that value has no line feed and no
    white space at either end. *)
Theorem format_parse_exact_only_clean a label key value :
  (key, value) ∈ article_record a →
  parse_content label (format_article a) !! lit key = Some value →
  clean value.
Proof.
  intros Hin [[E _]|(line & k0 & v0 & Hl & E & _ & ->)]%parse_content_lookup_inv.
  - by apply record_key_not_label in Hin.
  - by apply (line_parts_clean _ _ _ _ Hl E).
Qed.

Lemma format_parse_exact_only_clean_witness : clean (lit "Final score").
Proof.
  apply (format_parse_exact_only_clean match_report (lit "sport")
           "HEADLINE" (lit "Final score")); [compute_done|by vm_compute].
Defined.

Lemma primary_head (tags : list (gmap (list N) (list N))) (key : string) :
  primary (head tags) key = default [] (head (map (λ t, get t key) tags)).
Proof.
  destruct tags as [|t tags]; [done|]. simpl.
  case_bool_decide as E; [|done]. subst t. unfold get. by rewrite lookup_empty.
Qed.

Lemma join_csv_head (values : list (list N)) :
  join_csv values = default [] (head values)
  ∨ ∃ rest, join_csv values = default [] (head values) ++ COMMA :: rest.
Proof.
  destruct values as [|x [|y ys]]; [by left..|].
  right. by eexists.
Qed.

Lemma record_value_unique a key v1 v2 :
  (key, v1) ∈ article_record a → (key, v2) ∈ article_record a → v1 = v2.
Proof.
  intros H1 H2.
  assert (NoDup (article_record a).*1) as Hnd
    by (rewrite record_keys_spec; compute_done).
  pose proof (elem_of_list_to_map_1 (M := gmap string) _ _ _ Hnd H1) as E1.
  pose proof (elem_of_list_to_map_1 (M := gmap string) _ _ _ Hnd H2) as E2.
  congruence.
Qed.

(** X8. The primary tag leads the tag lists: in every record,
    [PRIMARY_TAG_ID] is the whole of [TAGS_IDS] or its part before a comma,
    and likewise [PRIMARY_TAG_TITLE] for [TAGS_TITLES]. *)
Theorem primary_tag_leads a p_id ids p_title titles :
  ("PRIMARY_TAG_ID", p_id) ∈ article_record a →
  ("TAGS_IDS", ids) ∈ article_record a →
  ("PRIMARY_TAG_TITLE", p_title) ∈ article_record a →
  ("TAGS_TITLES", titles) ∈ article_record a →
  (ids = p_id ∨ ∃ rest, ids = p_id ++ COMMA :: rest)
  ∧ (titles = p_title ∨ ∃ rest, titles = p_title ++ COMMA :: rest).
Proof.
  intros H1 H2 H3 H4.
  rewrite (record_value_unique a _ _ (primary (head (article_tags a)) "id") H1)
    by (apply list_elem_of_lookup; by exists 11).
  rewrite (record_value_unique a _ _
             (join_csv (map (λ t, get t "id") (article_tags a))) H2)
    by (apply list_elem_of_lookup; by exists 9).
  rewrite (record_value_unique a _ _ (primary (head (article_tags a)) "title") H3)
    by (apply list_elem_of_lookup; by exists 12).
  rewrite (record_value_unique a _ _
             (join_csv (map (λ t, get t "title") (article_tags a))) H4)
    by (apply list_elem_of_lookup; by exists 10).
  rewrite !primary_head. split; apply join_csv_head.
Qed.

Lemma primary_tag_leads_witness :
  (lit "sport/football,sport/cup" = lit "sport/football"
   ∨ ∃ rest, lit "sport/football,sport/cup" = lit "sport/football" ++ COMMA :: rest)
  ∧ (lit "Football,Cup" = lit "Football"
     ∨ ∃ rest, lit "Football,Cup" = lit "Football" ++ COMMA :: rest).
Proof.
  apply (primary_tag_leads match_report); compute_done.
Defined.

Lemma app_sep_inj c (x y r r' : list N) :
  c ∉ x → c ∉ y → x ++ c :: r = y ++ c :: r' → x = y ∧ r = r'.
Proof.
  revert y. induction x as [|a x IH]; intros [|b y] Hx Hy E; simpl in E.
  - by injection E as ->.
  - injection E as -> _. exfalso. apply Hy. by left.
  - injection E as -> _. exfalso. apply Hx. by left.
  - injection E as -> E. apply not_elem_of_cons in Hx as [_ Hx].
    apply not_elem_of_cons in Hy as [_ Hy].
    destruct (IH y Hx Hy E) as [-> ->]. done.
Qed.

Lemma join_comma_inj (xs ys : list (list N)) :
  xs ≠ [] → ys ≠ [] →
  Forall (λ x, COMMA ∉ x) xs → Forall (λ y, COMMA ∉ y) ys →
  join [COMMA] xs = join [COMMA] ys → xs = ys.
Proof.
  intros Hxs Hys Hx. revert ys Hys.
  induction Hx as [|x xs Hcx Hx IH]; [done|].
  intros [|y ys] Hys Hy E; [done|]. inversion Hy as [|? ? Hcy Hy']; subst.
  destruct xs as [|x' xs], ys as [|y' ys].
  - simpl in E. by subst.
  - change (x = y ++ COMMA :: join [COMMA] (y' :: ys)) in E.
    exfalso. apply Hcx. rewrite E. apply elem_of_app. right. by left.
  - change (x ++ COMMA :: join [COMMA] (x' :: xs) = y) in E.
    exfalso. apply Hcy. rewrite <- E. apply elem_of_app. right. by left.
  - change (x ++ COMMA :: join [COMMA] (x' :: xs)
            = y ++ COMMA :: join [COMMA] (y' :: ys)) in E.
    apply app_sep_inj in E as [-> E]; [|done..].
    f_equal. by apply IH.
Qed.

(** X9. The comma-joined encoding loses nothing on values without comma:
    two lists of comma-free strings with the same [join_csv] are equal,
    except that no value at all and a single empty value are both encoded
    as the empty string. *)
Theorem join_csv_inj (xs ys : list (list N)) :
  Forall (λ x, COMMA ∉ x) xs → Forall (λ y, COMMA ∉ y) ys →
  join_csv xs = join_csv ys →
  xs = ys ∨ (xs = [] ∧ ys = [[]]) ∨ (xs = [[]] ∧ ys = []).
Proof.
  intros Hx Hy E.
  destruct xs as [|x xs], ys as [|y ys]; [by left| | |].
  - right. left. split; [done|].
    destruct ys as [|y' ys]; [simpl in E; by subst|].
    change ([] = y ++ COMMA :: join [COMMA] (y' :: ys)) in E.
    by destruct y.
  - right. right. split; [|done].
    destruct xs as [|x' xs]; [simpl in E; by subst|].
    change (x ++ COMMA :: join [COMMA] (x' :: xs) = []) in E.
    by destruct x.
  - left. by apply join_comma_inj.
Qed.

Lemma join_csv_inj_witness :
  [lit "a"; lit "b"] = [lit "a"; lit "b"]
  ∨ ([lit "a"; lit "b"] = [] ∧ [lit "a"; lit "b"] = [[]])
  ∨ ([lit "a"; lit "b"] = [[]] ∧ [lit "a"; lit "b"] = []).
Proof.
  apply (join_csv_inj [lit "a"; lit "b"] [lit "a"; lit "b"]);
    [compute_done | compute_done | reflexivity].
Defined.

End EncoderExtras.

(** * Further properties of the collector *)

Section LoopInvariants.

Variable quota : nat.
Variable page_size : nat.
Variable source : list N → nat → nat → list article.

Implicit Types (target gid : list N) (count page fuel : nat) (st : state).

(** The four ways a pass can go. *)
Lemma iteration_cases target gid count page st :
  let st1 := log (Request page) st in
  (source gid page_size page = []
   ∧ iteration quota page_size source target gid count page st = Break count st1)
  ∨ ∃ name content,
      source gid page_size page ≠ []
      ∧ ((is_Some (files st !! name)
          ∧ iteration quota page_size source target gid count page st
            = Again count page st1)
         ∨ (files st !! name = None ∧ quota ≤ count + 1
            ∧ iteration quota page_size source target gid count page st
              = Break (count + 1) (write_text name content st1))
         ∨ (files st !! name = None ∧ count + 1 < quota
            ∧ iteration quota page_size source target gid count page st
              = Again (count + 1) (page + 1)
                  (log Sleep (write_text name content st1)))).
Proof.
  intros st1. unfold iteration. fold st1.
  destruct (source gid page_size page) as [|first rest]; [by left|].
  right.
  exists (art_id target page count (for_article quota count first rest) ++ lit ".txt"),
         (format_article (for_article quota count first rest)).
  split; [done|]. cbn zeta. change (files st1) with (files st).
  destruct (files st !! _) eqn:Hin; [left; by eauto|].
  right. destruct (Nat.leb_spec quota (count + 1)); [left|right]; by eauto.
Qed.

(** What every run keeps, whatever the fuel: the files it found, a count
    within the quota that is the number of its writes and of the files it
    added, and a page that is one ahead of the count. *)
Lemma while_loop_invariants fuel target gid count page st :
  let r := while_loop quota page_size source fuel target gid count page st in
  files st ⊆ files (run_state r)
  ∧ count ≤ run_count r
  ∧ (count ≤ quota → run_count r ≤ quota)
  ∧ size (files (run_state r)) = size (files st) + (run_count r - count)
  ∧ (∃ tr, trace (run_state r) = trace st ++ tr
           ∧ length (written tr) = run_count r - count
           ∧ Forall (λ p, page ≤ p ≤ page + (run_count r - count)) (requested tr))
  ∧ match r with
    | Running c p _ => c < quota ∧ p + count = page + c
    | Finished _ _ => True
    end.
Proof.
  revert count page st. induction fuel as [|fuel IH]; intros count page st.
  - simpl. destruct (Nat.leb_spec quota count); simpl;
      split_and!; try done; try lia;
      exists []; rewrite app_nil_r; split_and!; try done; simpl; lia.
  - cbn [while_loop]. destruct (Nat.leb_spec quota count).
    { simpl. split_and!; try done; try lia.
      exists []. rewrite app_nil_r. split_and!; try done; simpl; lia. }
    destruct (iteration_cases target gid count page st)
      as [[_ ->]|(name & content & _ & [[_ ->]|[(Hn & Hq & ->)|(Hn & Hq & ->)]])].
    + simpl. split_and!; try done; try lia.
      exists [Request page]. split_and!; [done|simpl; lia|].
      repeat constructor; lia.
    + specialize (IH count page (log (Request page) st)).
      destruct IH as (Hf & Hc & Hq & Hs & (tr & Ht & Hw & Hr) & Hrun).
      split_and!; try done.
      exists (Request page :: tr). split_and!.
      * rewrite Ht. cbn [log trace]. by rewrite <- app_assoc.
      * done.
      * cbn [requested omap list_omap]. fold (requested tr).
        constructor; [lia|done].
    + cbn [run_state run_count write_text log files trace].
      split_and!; try done; try lia.
      * by apply insert_subseteq.
      * rewrite map_size_insert_None by done. lia.
      * exists [Request page; Write name content].
        split_and!; [by rewrite <- app_assoc|simpl; lia|].
        repeat constructor; lia.
    + specialize (IH (count + 1) (page + 1)
                     (log Sleep (write_text name content (log (Request page) st)))).
      destruct IH as (Hf & Hc & Hq' & Hs & (tr & Ht & Hw & Hr) & Hrun).
      cbn [log write_text files trace] in *.
      split_and!; try lia.
      * etrans; [|exact Hf]. by apply insert_subseteq.
      * rewrite Hs, map_size_insert_None by done. lia.
      * exists (Request page :: Write name content :: Sleep :: tr).
        split_and!.
        -- rewrite Ht. by rewrite <- !app_assoc.
        -- cbn [written omap list_omap length]. fold (written tr). lia.
        -- cbn [requested omap list_omap]. fold (requested tr).
           constructor; [lia|].
           eapply Forall_impl; [exact Hr|]. simpl. intros p ?. lia.
      * destruct (while_loop _ _ _ _ _ _ _ _ _); [done|]. lia.
Qed.

(** A pass that comes back to the same count and page found its article
    stored; the loop is stuck there. *)
Lemma iteration_again_same target gid count page st st' :
  iteration quota page_size source target gid count page st = Again count page st' →
  ∃ first rest,
    source gid page_size page = first :: rest
    ∧ is_Some (files st !! (art_id target page count
                              (for_article quota count first rest) ++ lit ".txt")).
Proof.
  unfold iteration. destruct (source gid page_size page) as [|first rest]; [done|].
  cbn zeta. change (files (log (Request page) st)) with (files st).
  destruct (files st !! _) eqn:Hin; [by eauto|].
  destruct (quota <=? count + 1); [done|]. intros [= ? _]. lia.
Qed.

Lemma while_loop_running_forever target gid count page st :
  count < quota →
  (∃ st', iteration quota page_size source target gid count page st
          = Again count page st') →
  ∀ fuel, ∃ st', while_loop quota page_size source fuel target gid count page st
                 = Running count page st'.
Proof.
  intros Hlt [st' (first & rest & E & Hin)%iteration_again_same] fuel.
  eexists. by apply (while_loop_stuck quota page_size source target gid count page
                       first rest fuel st).
Qed.

Lemma while_loop_step fuel target gid count page st :
  count < quota →
  while_loop quota page_size source (S fuel) target gid count page st
  = match iteration quota page_size source target gid count page st with
    | Break count' st' => Finished count' st'
    | Again count' page' st' =>
        while_loop quota page_size source fuel target gid count' page' st'
    end.
Proof. intros H. cbn [while_loop]. by destruct (Nat.leb_spec quota count); [lia|]. Qed.

(** Within [quota - count] passes the loop is left, with a result that more
    fuel does not change, or it is never left at all. *)
Lemma while_loop_finishes_or_never fuel target gid count page st :
  quota - count ≤ fuel →
  (∃ c st', ∀ fuel', fuel ≤ fuel' →
     while_loop quota page_size source fuel' target gid count page st = Finished c st')
  ∨ (∀ fuel', ∃ c p st',
     while_loop quota page_size source fuel' target gid count page st = Running c p st').
Proof.
  revert count page st. induction fuel as [|fuel IH]; intros count page st Hfuel.
  { left. exists count, st. intros fuel' _. apply while_loop_at_quota. lia. }
  destruct (Nat.le_gt_cases quota count) as [Hq|Hlt].
  { left. exists count, st. intros fuel' _. by apply while_loop_at_quota. }
  destruct (iteration_cases target gid count page st)
    as [[_ E]|(name & content & _ & [[_ E]|[(Hn & Hq & E)|(Hn & Hq & E)]])].
  - left. eexists _, _. intros [|fuel'] ?; [lia|].
    by rewrite while_loop_step, E.
  - right. intros fuel'.
    destruct (while_loop_running_forever target gid count page st Hlt
                ltac:(by eauto) fuel') as [st' ->]. by eauto.
  - left. eexists _, _. intros [|fuel'] ?; [lia|].
    by rewrite while_loop_step, E.
  - destruct (IH (count + 1) (page + 1)
                 (log Sleep (write_text name content (log (Request page) st)))
                 ltac:(lia)) as [(c & st' & Hfin)|Hrun].
    + left. exists c, st'. intros [|fuel'] ?; [lia|].
      rewrite while_loop_step, E by done. apply Hfin. lia.
    + right. intros [|fuel'].
      * simpl. destruct (Nat.leb_spec quota count); [lia|]. by eauto.
      * rewrite while_loop_step, E by done. apply Hrun.
Qed.


(** Once a page is empty, no later page is requested and the count stays
    below its number. *)
Lemma while_loop_exhausted K fuel target gid count page st :
  source gid page_size K = [] →
  page ≤ K → page = count + 1 →
  Forall (λ p, p ≤ K) (requested (trace st)) →
  let r := while_loop quota page_size source fuel target gid count page st in
  Forall (λ p, p ≤ K) (requested (trace (run_state r))) ∧ run_count r < K.
Proof.
  intros HK. revert count page st.
  induction fuel as [|fuel IH]; intros count page st Hp Hpc Hreq.
  { simpl. destruct (Nat.leb_spec quota count); simpl; split; done || lia. }
  destruct (Nat.le_gt_cases quota count) as [Hq|Hlt].
  { rewrite while_loop_at_quota by done. simpl. split; done || lia. }
  assert (∀ st0 e, Forall (λ p, p ≤ K) (requested (trace st0)) →
                   Forall (λ p, p ≤ K) (requested [e]) →
                   Forall (λ p, p ≤ K) (requested (trace (log e st0)))) as Hlog.
  { intros st0 e H1 H2. cbn [log trace]. unfold requested.
    rewrite omap_app. by apply Forall_app. }
  assert (Forall (λ p, p ≤ K) (requested (trace (log (Request page) st)))) as Hreq1.
  { apply Hlog; [done|]. by repeat constructor. }
  cbv zeta. rewrite while_loop_step by done.
  destruct (iteration_cases target gid count page st)
    as [[_ E]|(name & content & Hne & [[_ E]|[(Hn & Hq & E)|(Hn & Hq & E)]])];
    rewrite E.
  - simpl. split; [done|lia].
  - by apply IH.
  - assert (page ≠ K) by (intros ->; by rewrite HK in Hne).
    cbn [run_state run_count]. split; [|lia].
    apply (Hlog _ (Write name content)) in Hreq1; [done|constructor].
  - assert (page ≠ K) by (intros ->; by rewrite HK in Hne).
    apply IH; [lia|lia|].
    apply Hlog; [|constructor].
    apply (Hlog _ (Write name content)) in Hreq1; [done|constructor].
Qed.

End LoopInvariants.

(** ** What every run of [collect_section] keeps *)

Section CollectorExtras.

Import Samples.

Variable quota : nat.
Variable page_size : nat.
Variable source : list N → nat → nat → list article.

Implicit Types (target gid : list N) (count page fuel : nat) (st : state).
Implicit Types (stored : gmap (list N) (list N)).

(** X10. No overwrite, no deletion: whatever the source and however long the
    run, every file found in the directory is still there afterwards, with
    the same text. *)
Theorem collect_section_keeps_files fuel target gid stored :
  stored ⊆ files (run_state
                    (collect_section quota page_size source fuel target gid stored)).
Proof.
  unfold collect_section.
  by destruct (while_loop_invariants quota page_size source fuel target gid 0 1
                 {| files := stored; trace := [] |}) as (H & _).
Qed.

(** X11. The count is exact and bounded: at any point of any run it is at
    most the quota, it is the number of writes made, and it is the number
    of files the directory has gained. *)
Theorem collect_section_counts fuel target gid stored :
  let r := collect_section quota page_size source fuel target gid stored in
  run_count r ≤ quota
  ∧ length (written (trace (run_state r))) = run_count r
  ∧ size (files (run_state r)) = size stored + run_count r.
Proof.
  unfold collect_section.
  destruct (while_loop_invariants quota page_size source fuel target gid 0 1
              {| files := stored; trace := [] |})
    as (_ & _ & Hq & Hs & (tr & Ht & Hw & _) & _).
  cbn [files trace] in *. rewrite Ht. cbn [app].
  split_and!; lia.
Qed.

(** X12. One article per page: the page in hand is always one ahead of the
    count, and no page beyond [count + 1] has been requested -- storing [n]
    articles takes requests for [n] different pages. *)
Theorem collect_section_page_ahead fuel target gid stored :
  let r := collect_section quota page_size source fuel target gid stored in
  Forall (λ p, 1 ≤ p ≤ run_count r + 1) (requested (trace (run_state r)))
  ∧ match r with
    | Running count page _ => count < quota ∧ page = count + 1
    | Finished _ _ => True
    end.
Proof.
  unfold collect_section.
  destruct (while_loop_invariants quota page_size source fuel target gid 0 1
              {| files := stored; trace := [] |})
    as (_ & _ & _ & _ & (tr & Ht & _ & Hr) & Hrun).
  cbn [files trace] in *. rewrite Ht. cbn [app]. split.
  - eapply Forall_impl; [exact Hr|]. simpl. intros p ?. lia.
  - destruct (while_loop _ _ _ _ _ _ _ _ _); [done|]. lia.
Qed.

(** X15. Exhaustion: if page [K] of the source is empty, no run requests a
    page beyond [K], and its count stays below [K]. *)
Theorem collect_section_exhausted K fuel target gid stored :
  1 ≤ K → source gid page_size K = [] →
  let r := collect_section quota page_size source fuel target gid stored in
  Forall (λ p, p ≤ K) (requested (trace (run_state r))) ∧ run_count r < K.
Proof.
  intros HK E. unfold collect_section.
  by apply while_loop_exhausted.
Qed.

(** X16. A pass stores at most one article of its page, the last one,
    whatever the size of the page. *)
Theorem iteration_stores_last_only target gid count page st first rest :
  count < quota →
  source gid page_size page = first :: rest →
  let after := files (control_state
                        (iteration quota page_size source target gid count page st)) in
  after = files st
  ∨ ∃ name, files st !! name = None
            ∧ after = <[ name := format_article (default first (last rest)) ]> (files st).
Proof. apply iteration_files. Qed.

End CollectorExtras.

Section CollectorExtrasWitnesses.

Import Samples.

Lemma collect_section_exhausted_witness :
  let r := collect_section 5 3 two_pages 9 (lit "news") (lit "news") ∅ in
  Forall (λ p, p ≤ 3) (requested (trace (run_state r))) ∧ run_count r < 3.
Proof.
  apply (collect_section_exhausted 5 3 two_pages 3 9 (lit "news") (lit "news") ∅);
    [lia|reflexivity].
Defined.

Lemma iteration_stores_last_only_witness :
  let after := files (control_state
                        (iteration 5 3 two_pages (lit "news") (lit "news") 0 1
                           {| files := ∅; trace := [] |})) in
  after = ∅
  ∨ ∃ name, (∅ : gmap (list N) (list N)) !! name = None
            ∧ after = <[ name := format_article (plain "a3") ]> ∅.
Proof.
  apply (iteration_stores_last_only 5 3 two_pages (lit "news") (lit "news") 0 1
           {| files := ∅; trace := [] |} (plain "a1") [plain "a2"; plain "a3"]);
    [lia|reflexivity].
Defined.

End CollectorExtrasWitnesses.

(** ** File names *)

Section NameExtras.

Implicit Types (c : char) (s x y target : list N) (page count : nat) (a : article).

Lemma replace_slash_no_slash s : SLASH ∉ replace_slash s.
Proof.
  unfold replace_slash. induction s as [|c s IH]; simpl.
  - apply not_elem_of_nil.
  - apply not_elem_of_cons. split; [|done].
    destruct (N.eqb_spec c SLASH); [done|congruence].
Qed.

Lemma lit_inj (s t : string) : lit s = lit t → s = t.
Proof.
  revert t. induction s as [|a s IH]; intros [|b t]; simpl; try done.
  intros [= Hab E]. f_equal; [|by apply IH].
  rewrite <- (Ascii.ascii_N_embedding a), <- (Ascii.ascii_N_embedding b).
  by rewrite Hab.
Qed.

(** The decimal text of a number holds digits only. *)
Lemma str_of_nat_digits n :
  Forall (λ c, (48 ≤ c ≤ 57)%N) (str_of_nat n).
Proof.
  unfold str_of_nat, NilZero.string_of_uint.
  assert (∀ d, Forall (λ c, (48 ≤ c ≤ 57)%N) (lit (NilEmpty.string_of_uint d)))
    as H by (induction d; simpl; constructor; done || lia).
  destruct (Nat.to_uint n); try apply H. by repeat constructor.
Qed.

Lemma str_of_nat_no c n : (c < 48 ∨ 57 < c)%N → c ∉ str_of_nat n.
Proof.
  intros Hc Hin. pose proof (str_of_nat_digits n) as H.
  rewrite Forall_forall in H. specialize (H _ Hin). lia.
Qed.

Lemma to_uint_nonnil n : Nat.to_uint n ≠ Decimal.Nil.
Proof.
  intros E. pose proof (Unsigned.of_to n) as H. rewrite E in H.
  simpl in H. subst n. discriminate E.
Qed.

Lemma str_of_nat_inj n m : str_of_nat n = str_of_nat m → n = m.
Proof.
  unfold str_of_nat. intros E%lit_inj.
  apply (f_equal NilZero.uint_of_string) in E.
  rewrite !NilZero.usu in E by apply to_uint_nonnil.
  injection E as E. by apply Unsigned.to_uint_inj.
Qed.

(** X17. The file name never leaves the directory: the name made of a
    non-empty [id] has no slash, and the fallback name has one only if the
    category name has. *)
Theorem art_id_no_slash target page count a :
  get (members a) "id" ≠ [] ∨ SLASH ∉ target →
  SLASH ∉ art_id target page count a.
Proof.
  intros H. unfold art_id.
  destruct (replace_slash (get (members a) "id")) as [|c r] eqn:E.
  - destruct H as [H|H].
    + destruct (get (members a) "id"); [done|discriminate E].
    + cbn [str_or].
      repeat (apply not_elem_of_app; split); try done; try compute_done;
        apply str_of_nat_no; left; reflexivity.
  - cbn [str_or]. rewrite <- E. apply replace_slash_no_slash.
Qed.

Lemma art_id_no_slash_witness :
  SLASH ∉ art_id (lit "news") 1 0 slash_id.
Proof.
  apply (art_id_no_slash (lit "news") 1 0 slash_id). left. by vm_compute.
Defined.

(** X18. Sanitising is not one-to-one: two ids that differ only by a slash
    against an underscore get the same file name, whatever the page and the
    count, and so share one file. *)
Theorem art_id_collision target page count page' count' a b x y :
  get (members a) "id" = x ++ SLASH :: y →
  get (members b) "id" = x ++ UNDERSCORE :: y →
  art_id target page count a = art_id target page' count' b.
Proof.
  intros Ea Eb. unfold art_id, replace_slash. rewrite Ea, Eb.
  rewrite !map_app. simpl.
  by destruct (map _ x).
Qed.

Lemma art_id_collision_witness :
  art_id (lit "world") 1 0 slash_id = art_id (lit "world") 7 6 underscore_id.
Proof.
  apply (art_id_collision (lit "world") 1 0 7 6 slash_id underscore_id
           (lit "world/2024/jan/05/a") (lit "b")); reflexivity.
Defined.

(** X19. Fallback names tell pages and counts apart: two names
    [<target>_<page>_<count>] for the same category are equal only for the
    same page and the same count. *)
Theorem fallback_name_inj target page count page' count' :
  target ++ lit "_" ++ str_of_nat page ++ lit "_" ++ str_of_nat count
  = target ++ lit "_" ++ str_of_nat page' ++ lit "_" ++ str_of_nat count' →
  page = page' ∧ count = count'.
Proof.
  intros E%app_inv_head.
  change (lit "_" ++ ?r) with (UNDERSCORE :: r) in E. injection E as E.
  apply app_sep_inj in E as [Ep Ec];
    [|apply str_of_nat_no; right; reflexivity..].
  split; by apply str_of_nat_inj.
Qed.

Lemma fallback_name_inj_witness : 12 = 12 ∧ 11 = 11.
Proof.
  apply (fallback_name_inj (lit "news") 12 11 12 11). reflexivity.
Defined.

End NameExtras.

(** ** The entry point *)

Section MainExtras.

Lemma collect_sections_keeps quota page_size source fuel sections data log d fs :
  data !! d = Some fs →
  ∃ fs', data_of (collect_sections quota page_size source fuel sections data log) !! d
         = Some fs'
         ∧ fs ⊆ fs'.
Proof.
  revert data log fs. induction sections as [|[target gid] sections IH];
    intros data log fs Hd; [by exists fs|].
  cbn [collect_sections].
  pose proof (while_loop_invariants quota page_size source fuel target gid 0 1
                {| files := default ∅ (data !! target); trace := [] |})
    as (Hkeep & _).
  fold (collect_section quota page_size source fuel target gid
          (default ∅ (data !! target))) in Hkeep.
  cbn [files] in Hkeep.
  assert (∀ st, default ∅ (data !! target) ⊆ files st →
            ∃ fs', <[target := files st]> data !! d = Some fs' ∧ fs ⊆ fs') as Hstep.
  { intros st Hsub. destruct (decide (target = d)) as [->|Hne].
    - rewrite lookup_insert_eq. eexists. split; [done|].
      by rewrite Hd in Hsub.
    - rewrite lookup_insert_ne by done. by exists fs. }
  destruct (collect_section _ _ _ _ _ _ _) as [c st|c p st]; simpl in Hkeep.
  - destruct (Hstep st Hkeep) as (fs1 & Hd1 & Hsub1).
    destruct (IH _ (log ++ [(gid, trace st)]) fs1 Hd1) as (fs' & Hd' & Hsub').
    exists fs'. split; [done|]. by etrans.
  - by apply Hstep.
Qed.

Lemma collect_sections_log quota page_size source fuel sections data log :
  let r := collect_sections quota page_size source fuel sections data log in
  ∃ started, (log_of r).*1 = log.*1 ++ started
             ∧ started `prefix_of` sections.*2
             ∧ (ending_of r = Completed → started = sections.*2)
             ∧ ending_of r ≠ RuntimeError.
Proof.
  revert data log. induction sections as [|[target gid] sections IH];
    intros data log.
  - exists []. simpl. by rewrite app_nil_r.
  - cbn [collect_sections].
    destruct (collect_section _ _ _ _ _ _ _) as [c st|c p st].
    + destruct (IH (<[target := files st]> data) (log ++ [(gid, trace st)]))
        as (started & E & Hp & Hc & Hr).
      exists (gid :: started). split_and!.
      * rewrite E, fmap_app. by rewrite <- app_assoc.
      * by apply prefix_cons.
      * intros H. simpl. f_equal. by apply Hc.
      * done.
    + exists [gid]. simpl. split_and!; try done.
      * by rewrite fmap_app.
      * apply prefix_cons, prefix_nil.
Qed.

(** X20. Without a key nothing is started: [main] raises [RuntimeError]
    exactly when [GUARDIAN_API_KEY] is not set or is empty, and then no
    section has been requested and the data directory is as it was. *)
Theorem main_needs_key source fuel environ data :
  (ending_of (main source fuel environ data) = RuntimeError
   ↔ environ !! lit "GUARDIAN_API_KEY" = None
     ∨ environ !! lit "GUARDIAN_API_KEY" = Some [])
  ∧ (ending_of (main source fuel environ data) = RuntimeError →
     log_of (main source fuel environ data) = []
     ∧ data_of (main source fuel environ data) = data).
Proof.
  unfold main, get_api_key.
  destruct (environ !! lit "GUARDIAN_API_KEY") as [[|c key]|] eqn:E.
  - split; [|done]. split; [by right|done].
  - pose proof (collect_sections_log ARTICLES_PER_SECTION PAGE_SIZE
                  (source (c :: key)) fuel SECTIONS data [])
      as (_ & _ & _ & _ & Hr).
    split; [|done]. split; [done|]. by intros [|].
  - split; [|done]. split; [by left|done].
Qed.

Lemma main_needs_key_witness :
  log_of (main keyed_source 5 ∅ ∅) = [] ∧ data_of (main keyed_source 5 ∅ ∅) = ∅.
Proof.
  apply (proj2 (main_needs_key keyed_source 5 ∅ ∅)). reflexivity.
Defined.

(** X21. [main] never removes or changes a file: whatever the source, the
    key and the fuel, every category directory that existed still exists
    afterwards and holds every file it held, with the same text. *)
Theorem main_keeps_files source fuel environ data d fs :
  data !! d = Some fs →
  ∃ fs', data_of (main source fuel environ data) !! d = Some fs' ∧ fs ⊆ fs'.
Proof.
  intros Hd. unfold main. destruct (get_api_key environ) as [key|].
  - by apply collect_sections_keeps.
  - by exists fs.
Qed.

Lemma main_keeps_files_witness :
  ∃ fs', data_of (main keyed_source 5 {[ lit "GUARDIAN_API_KEY" := lit "secret" ]}
                    {[ lit "sport" := {[ lit "old.txt" := lit "ID: old" ]} ]})
           !! lit "sport" = Some fs'
         ∧ {[ lit "old.txt" := lit "ID: old" ]} ⊆ fs'.
Proof.
  apply (main_keeps_files keyed_source 5 {[ lit "GUARDIAN_API_KEY" := lit "secret" ]}
           {[ lit "sport" := {[ lit "old.txt" := lit "ID: old" ]} ]}
           (lit "sport")).
  reflexivity.
Defined.

(** X22. The sections are collected in the order news, sport, opinion,
    culture, each requested under its Guardian id (opinion as
    [commentisfree]); the sections started are a prefix of that list, all
    four when [main] completes -- a section that does not finish keeps the
    later ones from being collected. *)
Theorem main_sections_in_order source fuel environ data :
  let r := main source fuel environ data in
  (log_of r).*1
    `prefix_of` [lit "news"; lit "sport"; lit "commentisfree"; lit "culture"]
  ∧ (ending_of r = Completed →
     (log_of r).*1 = [lit "news"; lit "sport"; lit "commentisfree"; lit "culture"]).
Proof.
  unfold main. destruct (get_api_key environ) as [key|].
  - pose proof (collect_sections_log ARTICLES_PER_SECTION PAGE_SIZE
                  (source key) fuel SECTIONS data [])
      as (started & E & Hp & Hc & _).
    cbv zeta. rewrite E. cbn [fmap list_fmap app]. by split.
  - simpl. split; [apply prefix_nil|done].
Qed.

Lemma main_sections_in_order_witness :
  (log_of (main keyed_source 5 {[ lit "GUARDIAN_API_KEY" := lit "secret" ]} ∅)).*1
  = [lit "news"; lit "sport"; lit "commentisfree"; lit "culture"].
Proof.
  apply (proj2 (main_sections_in_order keyed_source 5
                  {[ lit "GUARDIAN_API_KEY" := lit "secret" ]} ∅)).
  by vm_compute.
Defined.

End MainExtras.

(** ** The walk of [sensing.py] *)

Section SensingExtras.

Import Samples.

(** X23. The walk is never cut short: [main] prints one value for every
    file found, in order -- the decoded mapping of a readable file, [None]
    for a file that cannot be read -- and goes on to the next file. *)
Theorem sensing_main_prints_all (fs : filesystem) (found : list path) :
  Sensing.main fs found
  = Returned (map (λ file_path,
                     match fs file_path with
                     | Returned content =>
                         Some (parse_content (parent_name file_path) content)
                     | Raised _ => None
                     end) found).
Proof.
  induction found as [|file_path found IH]; [done|].
  cbn [Sensing.main map]. rewrite IH. unfold parse_article.
  by destruct (fs file_path).
Qed.

End SensingExtras.

(** ** The encoder loses nothing *)

Section EncoderInjective.

Implicit Types (a b : article) (rec : list (string * list N)).

Lemma kv_lines_inj rec1 rec2 :
  rec1.*1 = rec2.*1 →
  map (λ e, kv e.1 e.2) rec1 = map (λ e, kv e.1 e.2) rec2 →
  rec1 = rec2.
Proof.
  revert rec2. induction rec1 as [|[k1 v1] rec1 IH]; intros [|[k2 v2] rec2];
    try done.
  cbn [fmap list_fmap map fst snd]. intros [= -> Hk] [= Hv Hl].
  unfold kv in Hv. apply app_inv_head, app_inv_head in Hv. subst v2.
  f_equal. by apply IH.
Qed.

(** X24. The encoded text determines the record: two articles whose values
    hold no line feed and whose encoded texts are equal have the same
    fourteen values. *)
Theorem format_article_inj a b :
  Forall (λ e, LF ∉ e.2) (article_record a) →
  Forall (λ e, LF ∉ e.2) (article_record b) →
  format_article a = format_article b →
  article_record a = article_record b.
Proof.
  intros Ha Hb E. apply (f_equal split_lf) in E.
  rewrite !split_lf_format_article in E by done.
  apply kv_lines_inj; [|done].
  by rewrite !record_keys_spec.
Qed.

Lemma format_article_inj_witness :
  article_record (Samples.plain "a1")
  = article_record (Article {[ lit "id" := lit "a1" ]} Null (Present [])).
Proof.
  apply (format_article_inj (Samples.plain "a1")
           (Article {[ lit "id" := lit "a1" ]} Null (Present [])));
    [compute_done | compute_done | reflexivity].
Defined.

End EncoderInjective.

(** * The record as stored and read back *)

Section StoredRecord.

Import Samples.
Implicit Types (c : char) (s v label text : list N) (a : article).



















End StoredRecord.

(** * The encoder on any payload *)

Section PayloadFacts.

Import Payload.

Variable repr : pyval → list N.

Implicit Types (v tag article : pyval) (items values : list pyval).
Implicit Types (d f : gmap (list N) pyval).

Lemma elem_of_split_lf_join (l : list N) (ls : list (list N)) :
  l ∈ ls → LF ∉ l → l ∈ split_lf (join [LF] ls).
Proof.
  intros Hin Hl. induction ls as [|x ls IH]; [by apply elem_of_nil in Hin|].
  destruct ls as [|y ls].
  - apply list_elem_of_singleton in Hin as ->. simpl.
    rewrite split_lf_no_lf by done. by left.
  - change (join [LF] (x :: y :: ls)) with (x ++ LF :: join [LF] (y :: ls)).
    rewrite split_lf_app. apply elem_of_app.
    apply elem_of_cons in Hin as [->|Hin].
    + left. rewrite split_lf_no_lf by done. by left.
    + right. by apply IH.
Qed.

Lemma mapM_dict_get_ok items (key : string) :
  forallb is_dict items = true →
  mapM (λ tag, dict_get tag key (PStr [])) items = Ok (map (tag_get key) items).
Proof.
  induction items as [|tag items IH]; [done|]. simpl.
  intros [Ht Hi]%andb_prop. destruct tag; try done.
  cbn. rewrite IH by done. done.
Qed.

Lemma mapM_dict_get_fail items (key : string) :
  forallb is_dict items = false →
  mapM (λ tag, dict_get tag key (PStr [])) items = Raise AttributeError.
Proof.
  induction items as [|tag items IH]; [done|]. simpl.
  destruct tag; try done. cbn. intros H. by rewrite IH.
Qed.

Lemma strings_ok values :
  forallb is_str values = true → strings values = Ok (map text_of values).
Proof.
  induction values as [|v values IH]; [done|]. simpl.
  intros [Hv Hvs]%andb_prop. destruct v; try done.
  cbn. by rewrite IH.
Qed.

Lemma strings_fail values :
  forallb is_str values = false → strings values = Raise TypeError.
Proof.
  induction values as [|v values IH]; [done|]. simpl.
  destruct v; try done. cbn. intros H. by rewrite IH.
Qed.

Lemma join_csv_ok values :
  forallb is_str values = true →
  Payload.join_csv values = Ok (Encoder.join_csv (map text_of values)).
Proof.
  intros H. destruct values as [|v values]; [done|].
  unfold Payload.join_csv. rewrite strings_ok by done. done.
Qed.

Lemma join_csv_fail values :
  forallb is_str values = false → Payload.join_csv values = Raise TypeError.
Proof.
  intros H. destruct values as [|v values]; [done|].
  unfold Payload.join_csv. by rewrite strings_fail.
Qed.

Lemma tag_ok_split items :
  forallb tag_ok items
  = forallb is_dict items
    && forallb is_str (map (tag_get "id") items)
    && forallb is_str (map (tag_get "title") items).
Proof.
  induction items as [|tag items IH]; [done|]. simpl. rewrite IH.
  destruct tag; simpl; try done.
  destruct (is_str _), (is_str _), (forallb is_dict items),
    (forallb is_str _), (forallb is_str _); done.
Qed.

(** The record of a payload of the right shape. *)
Lemma payload_record_ok d f items :
  py_or (from_option id (PDict ∅) (d !! lit "fields")) (PDict ∅) = PDict f →
  py_or (from_option id (PList []) (d !! lit "tags")) (PList []) = PList items →
  forallb tag_ok items = true →
  let primary_tag := default PNone (head items) in
  let primary (key : string) :=
    if truthy primary_tag then tag_get key primary_tag else PStr [] in
  payload_record repr (PDict d)
  = Ok [ ("ID", py_format repr (from_option id (PStr []) (d !! lit "id")));
         ("SECTION_ID", py_format repr (from_option id (PStr []) (d !! lit "sectionId")));
         ("SECTION_NAME", py_format repr (from_option id (PStr []) (d !! lit "sectionName")));
         ("WEB_TITLE", py_format repr (from_option id (PStr []) (d !! lit "webTitle")));
         ("WEB_URL", py_format repr (from_option id (PStr []) (d !! lit "webUrl")));
         ("HEADLINE", py_format repr (from_option id (PStr []) (f !! lit "headline")));
         ("TRAIL_TEXT", py_format repr (from_option id (PStr []) (f !! lit "trailText")));
         ("BYLINE", py_format repr (from_option id (PStr []) (f !! lit "byline")));
         ("BODY_TEXT", py_format repr
                         (py_or (from_option id (PStr []) (f !! lit "bodyText")) (PStr [])));
         ("TAGS_IDS", Encoder.join_csv (map text_of (map (tag_get "id") items)));
         ("TAGS_TITLES", Encoder.join_csv (map text_of (map (tag_get "title") items)));
         ("PRIMARY_TAG_ID", py_format repr (primary "id"));
         ("PRIMARY_TAG_TITLE", py_format repr (primary "title"));
         ("PRIMARY_TAG_TYPE", py_format repr (primary "type")) ].
Proof.
  intros Hf Ht Hok. rewrite tag_ok_split in Hok.
  apply andb_prop in Hok as [[Hd Hi]%andb_prop Htl].
  unfold payload_record. cbn [dict_get mbind result_bind].
  rewrite Hf, Ht. cbn [dict_get py_iter mbind result_bind].
  rewrite !mapM_dict_get_ok by done. cbn [mbind result_bind].
  rewrite !join_csv_ok by done.
  destruct items as [|tag items'].
  { cbn [py_first py_primary truthy head default mbind result_bind]. reflexivity. }
  cbn [py_first truthy head default mbind result_bind].
  simpl in Hd. apply andb_prop in Hd as [Htag _]. destruct tag; try done.
  unfold py_primary, id. cbn [tag_get dict_get].
  destruct (truthy (PDict d0)); reflexivity.
Qed.

(** On any other payload an exception is raised. *)
Lemma payload_record_fail article :
  encodable article = false → ∃ e, payload_record repr article = Raise e.
Proof.
  destruct article as [| | | | |d]; try (intros _; by eexists).
  unfold encodable, payload_record. cbn [dict_get mbind result_bind].
  destruct (py_or (from_option id (PDict ∅) (d !! lit "fields")) (PDict ∅))
    as [| | | | |f] eqn:Hf; try (intros _; by eexists).
  cbn [dict_get mbind result_bind].
  destruct (from_option id (PList []) (d !! lit "tags")) as [|b|z sh|s|items|d'] eqn:Ht;
    unfold py_or; cbn [truthy].
  - done.
  - destruct b; [intros _; by eexists|done].
  - destruct z; [done|intros _; by eexists].
  - destruct s as [|c s]; [done|]. intros _. by eexists.
  - destruct items as [|tag items]; [done|].
    rewrite tag_ok_split. cbn [py_iter mbind result_bind].
    destruct (forallb is_dict (tag :: items)) eqn:Hd.
    + rewrite !mapM_dict_get_ok by done. cbn [mbind result_bind py_first truthy].
      simpl in Hd. apply andb_prop in Hd as [Htag _]. destruct tag; try done.
      unfold py_primary. cbn [andb].
      assert (∀ key : string, ∃ v,
                (if truthy (PDict d0) then dict_get (PDict d0) key (PStr []) else Ok (PStr []))
                = Ok v) as Hp.
      { intros key. destruct (truthy (PDict d0)); by eexists. }
      destruct (Hp "id") as [v1 ->], (Hp "title") as [v2 ->], (Hp "type") as [v3 ->].
      cbn [mbind result_bind].
      destruct (forallb is_str (map (tag_get "id") (PDict d0 :: items))) eqn:Hi.
      * rewrite (join_csv_ok _ Hi). cbn [andb mbind result_bind].
        intros Htl. rewrite (join_csv_fail _ Htl). by eexists.
      * rewrite (join_csv_fail _ Hi). intros _. by eexists.
    + rewrite (mapM_dict_get_fail _ "id") by done. intros _.
      cbn [mbind result_bind]. by eexists.
  - destruct (map_to_list d') as [|e es] eqn:Hl; [done|].
    intros _. cbn [py_iter mbind result_bind]. rewrite Hl.
    cbn [map mapM dict_get mbind result_bind]. by eexists.
Qed.

End PayloadFacts.

Section PayloadClaims.

Import Payload.

Implicit Types (v tag article : pyval) (items values : list pyval).
Implicit Types (d f : gmap (list N) pyval).

Lemma format_payload_lines repr article rec :
  payload_record repr article = Ok rec →
  format_payload repr article = Ok (join [LF] (map (λ e, kv e.1 e.2) rec)).
Proof. unfold format_payload. by intros ->. Qed.

(** C8, as stated, fails: on an article whose only tag has a null [id],
    [",".join] raises [TypeError]. *)
Lemma encode_null_tag_id_counterexample :
  format_payload some_repr null_tag_id = Raise TypeError.
Proof. by vm_compute. Qed.

(** C8 (amended). Encoder totality on missing data: [format_article]
    returns a text, and raises nothing, exactly on the article objects
    whose [fields] is missing, null (or otherwise falsy) or a mapping and
    whose [tags] is missing, null (or otherwise falsy) or a list of
    mappings that hold a string, if anything, under [id] and [title]; and
    in the text it returns, every line read from [fields] is its key with
    an empty value when the key it is read from is missing -- all four of
    them when [fields] itself is missing or null. *)
Theorem format_payload_missing_data repr article :
  ((∃ text, format_payload repr article = Ok text) ↔ encodable article = true)
  ∧ (∀ text f key src,
       format_payload repr article = Ok text →
       fields_of article = Some f →
       (key, src) ∈ fields_entries →
       f !! lit src = None →
       kv key [] ∈ split_lf text).
Proof.
  split.
  - split.
    + intros [text Htext]. destruct (encodable article) eqn:E; [done|].
      destruct (payload_record_fail repr article E) as [e He].
      unfold format_payload in Htext. by rewrite He in Htext.
    + intros E. destruct article as [| | | | |d]; try done.
      unfold encodable in E.
      destruct (py_or (from_option id (PDict ∅) (d !! lit "fields")) (PDict ∅))
        as [| | | | |f] eqn:Hf; try done.
      destruct (py_or (from_option id (PList []) (d !! lit "tags")) (PList []))
        as [| | | |items|] eqn:Ht; try done.
      eexists. apply format_payload_lines. by apply payload_record_ok.
  - intros text f key src Htext Hfields Hin Hnone.
    destruct article as [| | | | |d]; try done.
    assert (encodable (PDict d) = true) as E.
    { destruct (encodable (PDict d)) eqn:E; [done|].
      destruct (payload_record_fail repr _ E) as [e He].
      unfold format_payload in Htext. by rewrite He in Htext. }
    unfold encodable in E. unfold fields_of in Hfields.
    destruct (py_or (from_option id (PDict ∅) (d !! lit "fields")) (PDict ∅))
      as [| | | | |f'] eqn:Hf; try done.
    injection Hfields as ->.
    destruct (py_or (from_option id (PList []) (d !! lit "tags")) (PList []))
      as [| | | |items|] eqn:Ht; try done.
    pose proof (format_payload_lines _ _ _ (payload_record_ok repr d f items Hf Ht E))
      as Hlines.
    cbv zeta in Hlines. rewrite Htext in Hlines.
    apply (f_equal (λ r, match r with Ok t => t | Raise _ => [] end)) in Hlines.
    cbv beta iota in Hlines. subst text. clear Htext.
    apply elem_of_split_lf_join.
    + cbn [map fst snd].
      repeat (apply elem_of_cons in Hin as [Hin|Hin]);
        [injection Hin as -> ->; rewrite Hnone; cbn [from_option py_or truthy py_format];
         set_solver ..
        |by apply elem_of_nil in Hin].
    + repeat (apply elem_of_cons in Hin as [Hin|Hin]);
        [injection Hin as -> ->; compute_done ..|by apply elem_of_nil in Hin].
Qed.

Lemma format_payload_missing_data_witness :
  ∃ text, format_payload some_repr id_only = Ok text
          ∧ kv "BODY_TEXT" [] ∈ split_lf text.
Proof.
  destruct (proj2 (proj1 (format_payload_missing_data some_repr id_only)) eq_refl)
    as [text Htext].
  exists text. split; [exact Htext|].
  apply (proj2 (format_payload_missing_data some_repr id_only)
           text ∅ "BODY_TEXT" "bodyText" Htext);
    [reflexivity | compute_done | reflexivity].
Defined.

Lemma truthy_of_dict (t : gmap (list N) (list N)) :
  truthy (of_dict t) = negb (bool_decide (t = ∅)).
Proof.
  unfold of_dict. cbn [truthy].
  destruct (map_to_list (PStr <$> t)) as [|e es] eqn:E.
  - apply map_to_list_empty_iff, fmap_empty_iff in E. subst t.
    by rewrite bool_decide_eq_true_2.
  - rewrite bool_decide_eq_false_2; [done|]. intros ->.
    by rewrite fmap_empty, map_to_list_empty in E.
Qed.

Lemma tag_get_of_dict (key : string) (t : gmap (list N) (list N)) :
  tag_get key (of_dict t) = PStr (get t key).
Proof.
  unfold of_dict, get. cbn [tag_get]. rewrite lookup_fmap.
  by destruct (t !! lit key).
Qed.

Lemma tag_ok_of_dict (tags : list (gmap (list N) (list N))) :
  forallb tag_ok (map of_dict tags) = true.
Proof.
  induction tags as [|t tags IH]; [done|]. cbn [map forallb]. rewrite IH.
  rewrite andb_true_r.
  change (tag_ok (of_dict t))
    with (is_str (tag_get "id" (of_dict t)) && is_str (tag_get "title" (of_dict t))).
  by rewrite !tag_get_of_dict.
Qed.

Lemma of_article_lookup a (key : string) :
  lit key ≠ lit "fields" → lit key ≠ lit "tags" →
  from_option id (PStr [])
    (put "fields" (of_member of_dict (fields a))
       (put "tags" (of_member (λ l, PList (map of_dict l)) (tags a))
          (PStr <$> members a)) !! lit key)
  = PStr (get (members a) key).
Proof.
  intros H1 H2. unfold put, get.
  assert (lit "fields" ≠ lit key) as H1' by done.
  assert (lit "tags" ≠ lit key) as H2' by done.
  destruct (of_member of_dict (fields a)),
    (of_member (λ l, PList (map of_dict l)) (tags a));
    cbv beta iota;
    rewrite ?(lookup_insert_ne _ (lit "fields") (lit key) _ H1'),
      ?(lookup_delete_ne _ (lit "fields") (lit key) H1'),
      ?(lookup_insert_ne _ (lit "tags") (lit key) _ H2'),
      ?(lookup_delete_ne _ (lit "tags") (lit key) H2');
    rewrite (lookup_fmap PStr (members a) (lit key));
    by destruct (members a !! lit key).
Qed.

(** X25. On an article object whose members are strings, whose [fields] is
    missing, null or a mapping of strings and whose [tags] is missing, null
    or a list of mappings of strings, [format_article] raises nothing, and
    the text it returns is the one the encoder on typed articles gives. *)
Theorem format_payload_of_article repr a :
  format_payload repr (of_article a) = Ok (format_article a).
Proof.
  unfold of_article.
  set (d := put "fields" _ _).
  assert (py_or (from_option id (PDict ∅) (d !! lit "fields")) (PDict ∅)
          = of_dict (article_fields a)) as Hf.
  { unfold d, put, article_fields, get_or.
    destruct (fields a) as [| |fd]; cbn [of_member].
    - rewrite lookup_delete_eq. unfold of_dict. by rewrite fmap_empty.
    - rewrite lookup_insert_eq. unfold of_dict. by rewrite fmap_empty.
    - rewrite lookup_insert_eq. cbn [from_option id]. unfold py_or.
      rewrite truthy_of_dict. case_bool_decide; [|done].
      unfold of_dict. by rewrite fmap_empty. }
  assert (py_or (from_option id (PList []) (d !! lit "tags")) (PList [])
          = PList (map of_dict (article_tags a))) as Ht.
  { unfold d, put, article_tags, get_or.
    destruct (of_member of_dict (fields a));
      rewrite ?lookup_insert_ne, ?lookup_delete_ne by done;
      destruct (tags a) as [| |l]; cbn [of_member];
      rewrite ?lookup_delete_eq, ?lookup_insert_eq; try done;
      cbn [from_option id]; unfold py_or; by destruct l. }
  rewrite (format_payload_lines _ _ _
             (payload_record_ok repr d _ _ Hf Ht (tag_ok_of_dict _))).
  unfold format_article, article_lines. do 3 f_equal.
  unfold article_record. cbv zeta.
  unfold d. rewrite !of_article_lookup by done.
  assert (∀ key : string,
            from_option id (PStr []) ((PStr <$> article_fields a) !! lit key)
            = PStr (get (article_fields a) key)) as Hfl.
  { intros key. unfold get. rewrite lookup_fmap.
    by destruct (article_fields a !! lit key). }
  rewrite !Hfl. cbn [py_format].
  assert (∀ key : string,
            map text_of (map (tag_get key) (map of_dict (article_tags a)))
            = map (λ t : gmap (list N) (list N), get t key) (article_tags a)) as Hmap.
  { intros key. rewrite !map_map. apply map_ext. intros t.
    by rewrite tag_get_of_dict. }
  rewrite !Hmap.
  assert (∀ key : string,
            py_format repr
              (if truthy (default PNone (head (map of_dict (article_tags a))))
               then tag_get key (default PNone (head (map of_dict (article_tags a))))
               else PStr [])
            = primary (head (article_tags a)) key) as Hp.
  { intros key. destruct (article_tags a) as [|t ts]; [done|].
    cbn [map head default from_option primary]. unfold id.
    rewrite truthy_of_dict, tag_get_of_dict.
    by case_bool_decide. }
  rewrite !Hp.
  assert (py_format repr (py_or (PStr (get (article_fields a) "bodyText")) (PStr []))
          = str_or (get (article_fields a) "bodyText") []) as ->.
  { unfold py_or. cbn [truthy]. by destruct (get (article_fields a) "bodyText"). }
  done.
Qed.

End PayloadClaims.

(** * The collector against a feed that changes *)

Section FeedFacts.

Import Samples.

Variable quota : nat.
Variable page_size : nat.
Variable feed : nat → list N → nat → nat → list article.

Implicit Types (target gid : list N) (count page fuel tick : nat) (st : state).

(** A pass depends on the source through the page it asks for only. *)
Lemma iteration_ext (source1 source2 : list N → nat → nat → list article)
    target gid count page st :
  source1 gid page_size page = source2 gid page_size page →
  iteration quota page_size source1 target gid count page st
  = iteration quota page_size source2 target gid count page st.
Proof. intros E. unfold iteration. by rewrite E. Qed.

(** Against a feed that answers every page at every request as it did at
    the first, the loop is the loop against a fixed source. *)
Lemma while_loop_feed_stable fuel tick target gid count page st :
  (∀ tick' page', feed tick' gid page_size page' = feed 0 gid page_size page') →
  while_loop_feed quota page_size feed fuel tick target gid count page st
  = while_loop quota page_size (feed 0) fuel target gid count page st.
Proof.
  intros Hs. revert tick count page st.
  induction fuel as [|fuel IH]; intros tick count page st; [done|].
  cbn [while_loop_feed while_loop].
  destruct (quota <=? count); [done|].
  rewrite (iteration_ext (feed tick) (feed 0)) by apply Hs.
  destruct (iteration _ _ _ _ _ _ _ _); [done|]. apply IH.
Qed.




(** X13. Termination is all or nothing against a content source that
    answers every page, at every request of the run, as it did at the
    first: either the run leaves the loop within [quota] passes, with a
    result that no further fuel changes, or it never leaves it. *)
Theorem collect_section_finishes_or_never target gid stored :
  (∀ tick page, feed tick gid page_size page = feed 0 gid page_size page) →
  (∃ count st, ∀ fuel, quota ≤ fuel →
     collect_section_feed quota page_size feed fuel target gid stored
     = Finished count st)
  ∨ (∀ fuel, ∃ count page st,
     collect_section_feed quota page_size feed fuel target gid stored
     = Running count page st).
Proof.
  intros Hs. unfold collect_section_feed.
  destruct (while_loop_finishes_or_never quota page_size (feed 0) quota target gid
              0 1 {| files := stored; trace := [] |} ltac:(lia))
    as [(c & st & H)|H]; [left|right].
  - exists c, st. intros fuel Hf. rewrite while_loop_feed_stable by done. by apply H.
  - intros fuel. rewrite while_loop_feed_stable by done. apply H.
Qed.


End FeedFacts.

Section FeedWitnesses.

Import Samples.

Lemma collect_section_finishes_or_never_witness :
  (∃ count st, ∀ fuel, 2 ≤ fuel →
     collect_section_feed 2 3 (λ _, two_pages) fuel (lit "news") (lit "news") ∅
     = Finished count st)
  ∨ (∀ fuel, ∃ count page st,
     collect_section_feed 2 3 (λ _, two_pages) fuel (lit "news") (lit "news") ∅
     = Running count page st).
Proof.
  apply (collect_section_finishes_or_never 2 3 (λ _, two_pages)
           (lit "news") (lit "news") ∅).
  reflexivity.
Defined.


End FeedWitnesses.
